(** * nextcloud-cli: version catalogue, upgrade planning and the
      sequential upgrade run

    A shallow embedding of [nextcloud-cli.py]:
    - [fetch_nextcloud_fpm_versions] and [fetch_semver_versions]
      (registry paging, tag filtering, one tag per major version);
    - [update_docker_compose_images] (the read / modify / write cycle on
      docker-compose.yml);
    - [run_update_process] (planning and the step loop), together with
      [wait_for_nextcloud_status] and [run_occ_commands];
    - [detect_version], [get_container_id],
      [update_additional_container] and [run_update];
    - [build_compose_services] of the installation, with
      [maybe_container_name] and [postgres_healthcheck].

    What the program obtains from outside (registry answers, the running
    containers, the operator's choices, the exit status of child
    processes) is an explicit input of the model.  The library
    [packaging.version] and the iteration order of a Python [set] are
    interfaces (type classes); all general theorems hold for every
    implementation of them, and one small implementation of each is given
    so that the model can be run on concrete inputs. *)

From stdpp Require Import base option list strings gmap fin_maps sorting.

Local Open Scope Z_scope.
Local Open Scope nat_scope.

(** ** Python strings *)

Module Py.

(** [sub in s] for two strings. *)
Fixpoint contains (sub s : string) : bool :=
  String.prefix sub s ||
  match s with
  | EmptyString => false
  | String _ s' => contains sub s'
  end.

(** [s.replace(old, new)]: every non-overlapping occurrence of [old],
    found from left to right.  [skip] counts the characters of the
    current occurrence that are still to be dropped. *)
Fixpoint replace_from (old new : string) (skip : nat) (s : string) : string :=
  match s with
  | EmptyString =>
      match old, skip with
      | EmptyString, O => new
      | _, _ => EmptyString
      end
  | String c s' =>
      match skip with
      | S k => replace_from old new k s'
      | O =>
          if String.prefix old s then
            match old with
            | EmptyString => new +:+ String c (replace_from old new 0 s')
            | String _ old' => new +:+ replace_from old new (String.length old') s'
            end
          else String c (replace_from old new 0 s')
      end
  end.

Definition replace (old new s : string) : string := replace_from old new 0 s.

(** [any(sub in s for sub in subs)] *)
Definition any_in (subs : list string) (s : string) : bool :=
  existsb (fun sub => contains sub s) subs.

End Py.

(** ** Exceptions *)

Inductive exn :=
  | RequestException      (* requests.get: transport failure, timeout *)
  | HTTPError             (* resp.raise_for_status() *)
  | JSONDecodeError       (* resp.json() *)
  | AttributeError
  | TypeError
  | KeyError
  | InvalidVersion        (* packaging.version.Version(...) *)
  | YAMLError             (* yaml.safe_load *)
  | OSError.              (* a child process that cannot be spawned *)

Inductive result (A : Type) :=
  | Ok (a : A)
  | Raise (e : exn).
Arguments Ok {A} a.
Arguments Raise {A} e.

#[global] Instance result_ret : MRet result := fun _ a => Ok a.
#[global] Instance result_bind : MBind result := fun _ _ f m =>
  match m with
  | Ok a => f a
  | Raise e => Raise e
  end.
#[global] Instance result_fmap : FMap result := fun _ _ f m =>
  match m with
  | Ok a => Ok (f a)
  | Raise e => Raise e
  end.

(** [try: ... except Exception: return d] *)
Definition or_else {A} (m : result A) (d : A) : A :=
  match m with
  | Ok a => a
  | Raise _ => d
  end.

(** ** packaging.version *)

(** The part of [packaging.version.Version] the program uses: the
    constructor (which raises [InvalidVersion], here [None]), the
    comparison of two versions and the [major] attribute.  Two values of
    [V] are equal exactly when Python's [==] holds. *)
Class PackagingVersion (V : Type) := {
  Version : string -> option V;
  version_lt : V -> V -> bool;
  major : V -> nat;
  version_lt_irrefl : forall a, version_lt a a = false;
  version_lt_trans : forall a b c,
    version_lt a b = true -> version_lt b c = true -> version_lt a c = true;
  version_lt_total : forall a b,
    version_lt a b = false -> version_lt b a = false -> a = b;
}.

(** [a > b] and [a <= b] as Python derives them from the comparison key. *)
Definition version_gt `{PackagingVersion V} (a b : V) : bool := version_lt b a.
Definition version_le `{PackagingVersion V} (a b : V) : bool := negb (version_lt b a).

(** ** Iteration order of [set(...)] *)

(** [set(l)] enumerates each element of [l] once, in an order the
    language does not fix. *)
Class SetOrder := {
  set_iter : list string -> list string;
  set_iter_NoDup : forall l, NoDup (set_iter l);
  set_iter_elem : forall l x, x ∈ set_iter l <-> x ∈ l;
}.

(** ** [sorted(iterable, key=..., reverse=...)]

    Python computes the key of every element first (an exception of the
    key function escapes from [sorted]), then sorts stably; with
    [reverse=True] elements with equal keys also keep their order. *)

Section sorted.
Context `{PackagingVersion V}.

(** [x] has to come after [y]. *)
Definition goes_after (reverse : bool) (x y : V * string) : bool :=
  if reverse then version_lt x.1 y.1 else version_lt y.1 x.1.

Fixpoint insert_sorted (reverse : bool) (x : V * string)
    (l : list (V * string)) : list (V * string) :=
  match l with
  | [] => [x]
  | y :: l' =>
      if goes_after reverse x y then y :: insert_sorted reverse x l' else x :: l
  end.

Definition sort_keyed (reverse : bool) (l : list (V * string)) : list (V * string) :=
  foldr (insert_sorted reverse) [] l.

Definition with_key (key : string -> option V) (x : string) : result (V * string) :=
  match key x with
  | Some k => Ok (k, x)
  | None => Raise InvalidVersion
  end.

Fixpoint decorate (key : string -> option V) (l : list string)
    : result (list (V * string)) :=
  match l with
  | [] => Ok []
  | x :: l' =>
      kx ← with_key key x;
      d ← decorate key l';
      Ok (kx :: d)
  end.

Definition sorted (key : string -> option V) (reverse : bool) (l : list string)
    : result (list string) :=
  d ← decorate key l;
  Ok ((sort_keyed reverse d).*2).

End sorted.

(** ** The registry *)

Definition NEXTCLOUD_REPO : string := "library/nextcloud".
Definition POSTGRES_REPO : string := "library/postgres".
Definition REDIS_REPO : string := "library/redis".
Definition NGINX_REPO : string := "library/nginx".
Definition MAX_PAGE : nat := 100.

(** One element of ["results"]. *)
Inductive json_item :=
  | Tag (name : string)   (* an object with a string ["name"] *)
  | Unnamed               (* an object without ["name"]: [item.get] gives the empty string *)
  | BadItem.              (* anything on which [item.get] or [sub in tag_name] raises *)

(** What one request for a page of tags leads to. *)
Inductive response :=
  | NoResponse            (* [requests.get] raises *)
  | ErrorStatus           (* [resp.raise_for_status()] raises *)
  | NotJson               (* [resp.json()] raises *)
  | Malformed             (* a JSON value on which [data.get] or the loop raises *)
  | Body (results : list json_item) (next : bool).
      (* [data.get("results", [])] and the truth value of [data.get("next")] *)

(** The registry answers a request for a repository and a page number. *)
Definition registry := string -> nat -> response.

(** Outcome of one turn of a loop body. *)
Inductive flow (S : Type) :=
  | Continue (s : S)
  | Break (s : S).
Arguments Continue {S} s.
Arguments Break {S} s.

Section fetching.
Context `{PackagingVersion V} `{SetOrder}.

(** The substrings that rule a Nextcloud tag out. *)
Definition fpm_deny_list : list string := ["apache"; "windows"; "rc"; "beta"].

Definition item_name (item : json_item) : result string :=
  match item with
  | Tag name => Ok name
  | Unnamed => Ok EmptyString
  | BadItem => Raise AttributeError
  end.

(** The body of [for item in results] of [fetch_nextcloud_fpm_versions]
    (lines 66-78): [true] when the tag is appended. *)
Definition keep_fpm (tag_name : string) : bool :=
  if Py.any_in fpm_deny_list tag_name then false
  else if negb (Py.contains "fpm" tag_name) then false
  else
    match Version (Py.replace "-fpm" EmptyString tag_name) with
    | Some _ => true
    | None => false
    end.

(** The same for [fetch_semver_versions] (lines 121-129). *)
Definition keep_semver (filter_substrings : list string) (tag_name : string) : bool :=
  if Py.any_in filter_substrings tag_name then false
  else
    match Version tag_name with
    | Some _ => true
    | None => false
    end.

Fixpoint for_results (keep : string -> bool) (results : list json_item)
    (all_versions : list string) : result (list string) :=
  match results with
  | [] => Ok all_versions
  | item :: rest =>
      tag_name ← item_name item;
      for_results keep rest
        (if keep tag_name then all_versions ++ [tag_name] else all_versions)
  end.

(** One turn of the [while] loop, from [url = ...] to [page += 1]
    (lines 59-81 and 114-132). *)
Definition page_turn (keep : string -> bool) (hub : nat -> response)
    (page : nat) (all_versions : list string) : result (flow (nat * list string)) :=
  match hub page with
  | NoResponse => Raise RequestException
  | ErrorStatus => Raise HTTPError
  | NotJson => Raise JSONDecodeError
  | Malformed => Raise AttributeError
  | Body results next =>
      match results with
      | [] => Ok (Break (page, all_versions))
      | _ =>
          all_versions' ← for_results keep results all_versions;
          if next then Ok (Continue (page + 1, all_versions'))
          else Ok (Break (page, all_versions'))
      end
  end.

(** [while page <= MAX_PAGE and len(all_versions) < 100] (lines 58 and
    113). *)
Definition page_cond (page : nat) (all_versions : list string) : bool :=
  (page <=? MAX_PAGE) && (length all_versions <? 100).

(** The paging loop; [None] when [fuel] turns were not enough. *)
Fixpoint while_pages (fuel : nat) (keep : string -> bool) (hub : nat -> response)
    (page : nat) (all_versions : list string) : option (result (nat * list string)) :=
  if page_cond page all_versions then
    match fuel with
    | O => None
    | S fuel' =>
        match page_turn keep hub page all_versions with
        | Raise e => Some (Raise e)
        | Ok (Break st) => Some (Ok st)
        | Ok (Continue (page', all_versions')) =>
            while_pages fuel' keep hub page' all_versions'
        end
    end
  else Some (Ok (page, all_versions)).

(** [for tag in sorted_tags: ...] filling the dictionary [distinct]
    (lines 86-92 and 134-140), kept as an association list in insertion
    order. *)
Fixpoint fold_majors (key : string -> option V) (max_count : Z)
    (sorted_tags : list string) (distinct : list (nat * string))
    : result (list (nat * string)) :=
  match sorted_tags with
  | [] => Ok distinct
  | tag :: rest =>
      match key tag with
      | None => Raise InvalidVersion
      | Some ver =>
          let distinct' :=
            if bool_decide (major ver ∈ distinct.*1) then distinct
            else distinct ++ [(major ver, tag)] in
          if (max_count <=? Z.of_nat (length distinct'))%Z then Ok distinct'
          else fold_majors key max_count rest distinct'
      end
  end.

(** From [sorted_tags = sorted(set(...))] to [return final_list]
    (lines 85-96 and 133-143). *)
Definition select_majors (key : string -> option V) (max_count : Z)
    (all_versions : list string) : result (list string) :=
  sorted_tags ← sorted key true (set_iter all_versions);
  distinct ← fold_majors key max_count sorted_tags [];
  sorted key true (distinct.*2).

Definition parse_core (tag : string) : option V :=
  Version (Py.replace "-fpm" EmptyString tag).

(** The state [(page, all_fpm_versions)] when the loop is left. *)
Definition paging_fpm (hub : registry) : option (result (nat * list string)) :=
  while_pages MAX_PAGE keep_fpm (hub NEXTCLOUD_REPO) 1 [].

Definition fetch_nextcloud_fpm_versions (hub : registry) : option (list string) :=
  r ← paging_fpm hub;
  Some (or_else (r ≫= fun st => select_majors parse_core 10 st.2) []).

Definition paging_semver (hub : registry) (docker_repo : string)
    (filter_substrings : list string) : option (result (nat * list string)) :=
  while_pages MAX_PAGE (keep_semver filter_substrings) (hub docker_repo) 1 [].

Definition default_filter : list string := ["windows"; "rc"; "beta"].

Definition fetch_semver_versions (hub : registry) (docker_repo : string)
    (max_count : Z) (filter_substrings : list string) : option (list string) :=
  r ← paging_semver hub docker_repo filter_substrings;
  Some (or_else (r ≫= fun st => select_majors Version max_count st.2) []).

End fetching.

(** ** docker-compose.yml *)

(** The data [yaml.safe_load] builds.  The file is identified with the
    data it holds: [yaml.dump] followed by [yaml.safe_load] gives the
    same data back, and no node is shared between two places of the
    document (the files this program writes have no aliases).  Mappings
    are keyed by strings; the scalars that are neither null, a boolean
    nor a string (floats, dates) behave as [YInt] in all that follows. *)
#[local] Unset Elimination Schemes.
Inductive yaml :=
  | YNull
  | YBool (b : bool)
  | YInt (z : Z)
  | YStr (s : string)
  | YSeq (l : list yaml)
  | YMap (m : gmap string yaml).
#[local] Set Elimination Schemes.

(** The compose file on disk: [None] when it cannot be read or parsed
    ([open] or [yaml.safe_load] raises). *)
Definition compose_file := option yaml.

(** [compose_data.get("services", {})] *)
Definition get_services (compose_data : yaml) : result yaml :=
  match compose_data with
  | YMap top => Ok (default (YMap ∅) (top !! "services"))
  | _ => Raise AttributeError
  end.

(** [service in services] *)
Definition service_in (service : string) (services : yaml) : result bool :=
  match services with
  | YMap m => Ok (bool_decide (is_Some (m !! service)))
  | YSeq l =>
      Ok (existsb (fun y => match y with
                            | YStr s => String.eqb service s
                            | _ => false
                            end) l)
  | YStr s => Ok (Py.contains service s)
  | _ => Raise TypeError
  end.

(** [compose_data["services"][service]["image"] = value] *)
Definition assign_image (service value : string) (compose_data : yaml) : result yaml :=
  match compose_data with
  | YMap top =>
      match top !! "services" with
      | Some (YMap services) =>
          match services !! service with
          | Some (YMap entry) =>
              Ok (YMap (<["services" :=
                    YMap (<[service := YMap (<["image" := YStr value]> entry)]> services)]> top))
          | Some _ => Raise TypeError
          | None => Raise KeyError
          end
      | Some _ => Raise TypeError
      | None => Raise KeyError
      end
  | _ => Raise TypeError
  end.

(** The body of the [try] of [update_docker_compose_images] (lines
    781-786): the data written back to the file. *)
Definition updated_compose_data (new_version service : string) (file : compose_file)
    : result yaml :=
  match file with
  | None => Raise YAMLError
  | Some compose_data =>
      services ← get_services compose_data;
      service_in service services ≫= fun present : bool =>
      if present then assign_image service ("nextcloud:" +:+ new_version) compose_data
      else Ok compose_data
  end.

(** [update_docker_compose_images]: the file afterwards, and whether the
    success message ([true]) or the error message ([false]) was printed.
    The function returns nothing and raises nothing. *)
Definition update_docker_compose_images (new_version service : string)
    (file : compose_file) : compose_file * bool :=
  match updated_compose_data new_version service file with
  | Ok compose_data' => (Some compose_data', true)
  | Raise _ => (file, false)
  end.

(** The image reference of a service, when the document has one. *)
Definition service_image (service : string) (file : compose_file) : option yaml :=
  match file with
  | Some (YMap top) =>
      match top !! "services" with
      | Some (YMap services) =>
          match services !! service with
          | Some (YMap entry) => entry !! "image"
          | _ => None
          end
      | _ => None
      end
  | _ => None
  end.

(** [compose_data["services"]] of a document that is a mapping and whose
    ["services"], when given, is a mapping. *)
Definition compose_services (compose_data : yaml) : option (gmap string yaml) :=
  match compose_data with
  | YMap top =>
      match top !! "services" with
      | None => Some ∅
      | Some (YMap services) => Some services
      | Some _ => None
      end
  | _ => None
  end.

Definition is_mapping (y : yaml) : bool :=
  match y with
  | YMap _ => true
  | _ => false
  end.

(** A well-formed deployment-state document: a mapping of service names
    to mappings of fields. *)
Definition well_formed (compose_data : yaml) : Prop :=
  exists services, compose_services compose_data = Some services
    /\ map_Forall (fun _ entry => is_mapping entry = true) services.

(** ** The upgrade run *)

(** What [subprocess.run(..., check=True)] meets. *)
Inductive process :=
  | Exited (returncode : Z)
  | NotSpawned.           (* the program could not be started *)

Inductive called :=
  | Done
  | CalledProcessError    (* non-zero exit status under [check=True] *)
  | SpawnFailure.         (* an [OSError], which no handler of the program catches *)

Definition check_call (p : process) : called :=
  match p with
  | Exited 0 => Done
  | Exited _ => CalledProcessError
  | NotSpawned => SpawnFailure
  end.

(** The three [php occ] commands of [run_occ_commands]. *)
Inductive occ_command :=
  | DbAddMissingIndices   (* occ db:add-missing-indices *)
  | MaintenanceRepair     (* occ maintenance:repair --include-expensive *)
  | OccUpgrade.           (* occ upgrade *)

(** What the run does to its surroundings, in order. *)
Inductive event :=
  | StepRule (step total : nat) (version : string)  (* console.rule("Update Step ...") *)
  | ComposeDown                                     (* docker-compose down *)
  | ComposeUp                                       (* docker-compose up -d *)
  | Sleep (seconds : nat)                           (* time.sleep *)
  | ImageUpdated (service version : string)         (* "... updated to version ..." *)
  | ImageUpdateError (service : string)             (* "Error updating docker-compose file ..." *)
  | StatusRequest                                   (* GET /status.php *)
  | Occ (command : occ_command)                     (* docker exec ... php occ ... *)
  | OccError                                        (* "Error running OCC commands ..." *)
  | ContainerNotFound                               (* "Nextcloud-FPM container not found!" *)
  | StepCompleted (step : nat) (version : string).  (* "Update step ... completed ..." *)

(** The answers to the two prompts of [run_update_process]. *)
Inductive update_mode :=
  | Latest                        (* "Update to the latest version" *)
  | Specific (target : string).   (* "Update to a specific version" and the chosen target *)

(** Everything the run obtains from outside.  [step] is the value of
    [step_counter] at the time of the call. *)
Record environment := {
  installed_version : string;                  (* detect_version("nextcloud-fpm") *)
  hub : registry;
  mode : update_mode;
  compose_down : nat -> process;               (* step *)
  compose_up : nat -> process;                 (* step *)
  status_php : nat -> nat -> option string;    (* step, attempt: the body, [None] if [requests.get] raises *)
  fpm_container : nat -> option string;        (* step: get_container_id("nextcloud-fpm") *)
  occ : nat -> occ_command -> process;         (* step, command *)
}.

(** The compose file and the events so far. *)
Record machine := {
  compose : compose_file;
  log : list event;
}.

Definition emit (events : list event) (m : machine) : machine :=
  {| compose := compose m; log := log m ++ events |}.

(** A call of [update_docker_compose_images] and the message it prints. *)
Definition update_image (new_version service : string) (m : machine) : machine :=
  let '(file, ok) := update_docker_compose_images new_version service (compose m) in
  {| compose := file;
     log := log m ++ [if ok then ImageUpdated service new_version
                      else ImageUpdateError service] |}.

Definition dquote : string := String (Ascii.ascii_of_nat 34) EmptyString.

(** The test of [wait_for_nextcloud_status] on one answer. *)
Definition status_ready (answer : option string) : bool :=
  match answer with
  | None => false
  | Some text =>
      Py.contains (dquote +:+ "installed" +:+ dquote +:+ ":true") text
      && Py.contains (dquote +:+ "maintenance" +:+ dquote +:+ ":false") text
      && Py.contains (dquote +:+ "needsDbUpgrade" +:+ dquote +:+ ":false") text
  end.

(** [wait_for_nextcloud_status] (lines 791-808): the events of the
    polling loop, [None] when [fuel] requests were not enough. *)
Fixpoint wait_for_nextcloud_status (fuel : nat) (status : nat -> option string)
    (attempt : nat) : option (list event) :=
  match fuel with
  | O => None
  | S fuel' =>
      if status_ready (status attempt) then Some [StatusRequest]
      else
        rest ← wait_for_nextcloud_status fuel' status (S attempt);
        Some (StatusRequest :: Sleep 30 :: rest)
  end.

(** [run_occ_commands] (lines 810-822): its events, and the exception
    that escapes it if any. *)
Definition run_occ_commands (exec : occ_command -> process) : list event * result unit :=
  match check_call (exec DbAddMissingIndices) with
  | SpawnFailure => ([Occ DbAddMissingIndices], Raise OSError)
  | CalledProcessError => ([Occ DbAddMissingIndices; OccError], Ok ())
  | Done =>
      match check_call (exec MaintenanceRepair) with
      | SpawnFailure =>
          ([Occ DbAddMissingIndices; Sleep 60; Occ MaintenanceRepair], Raise OSError)
      | CalledProcessError =>
          ([Occ DbAddMissingIndices; Sleep 60; Occ MaintenanceRepair; OccError], Ok ())
      | Done =>
          match check_call (exec OccUpgrade) with
          | SpawnFailure =>
              ([Occ DbAddMissingIndices; Sleep 60; Occ MaintenanceRepair; Sleep 60;
                Occ OccUpgrade], Raise OSError)
          | CalledProcessError =>
              ([Occ DbAddMissingIndices; Sleep 60; Occ MaintenanceRepair; Sleep 60;
                Occ OccUpgrade; OccError], Ok ())
          | Done =>
              ([Occ DbAddMissingIndices; Sleep 60; Occ MaintenanceRepair; Sleep 60;
                Occ OccUpgrade], Ok ())
          end
      end
  end.

(** How [run_update_process] ends. *)
Inductive exit :=
  | ComparisonError       (* "Error comparing versions", return *)
  | NoNewerVersion        (* "No newer version available for update.", return *)
  | NoStepsRequired       (* "No update steps are required.", return *)
  | StopFailed (step : nat)   (* "Failed to stop containers", return *)
  | StartFailed (step : nat)  (* "Failed to start containers", return *)
  | Completed             (* the loop over the update path ran to its end *)
  | Uncaught (e : exn).   (* an exception leaves the function *)

Section run.
Context `{PackagingVersion V} `{SetOrder}.

(** [for version in available_versions: ...] inside the [try] (lines
    852-854). *)
Fixpoint newer_versions (installed : string) (available_versions : list string)
    (update_path : list string) : result (list string) :=
  match available_versions with
  | [] => Ok update_path
  | version :: rest =>
      match parse_core version, parse_core installed with
      | Some a, Some b =>
          newer_versions installed rest
            (if version_gt a b then update_path ++ [version] else update_path)
      | _, _ => Raise InvalidVersion
      end
  end.

(** [[v for v in update_path if Version(...) <= Version(target...)]]
    (line 882) *)
Fixpoint up_to (target_version : string) (update_path : list string)
    : result (list string) :=
  match update_path with
  | [] => Ok []
  | v :: rest =>
      match parse_core v, parse_core target_version with
      | Some a, Some b =>
          kept ← up_to target_version rest;
          Ok (if version_le a b then v :: kept else kept)
      | _, _ => Raise InvalidVersion
      end
  end.

(** The planning part of [run_update_process] (lines 848-889), up to
    [total_steps = len(update_path)]. *)
Inductive planning :=
  | PlanComparisonError
  | PlanNoNewerVersion
  | PlanUncaught (e : exn)
  | Plan (choices update_path : list string).
      (* the versions offered to the operator and the final update path *)

Definition plan_update (installed : string) (available_versions : list string)
    (answer : update_mode) : planning :=
  match newer_versions installed available_versions [] with
  | Raise _ => PlanComparisonError
  | Ok [] => PlanNoNewerVersion
  | Ok choices =>
      let chosen :=
        match answer with
        | Specific target_version => up_to target_version choices
        | Latest => Ok choices
        end in
      match chosen ≫= sorted parse_core false with
      | Raise e => PlanUncaught e
      | Ok update_path => Plan choices update_path
      end
  end.

(** One turn of [for next_version in update_path] (lines 897-923):
    [Some x] when the run ends with [x] inside this step, [None] when
    the loop goes on. *)
Definition upgrade_step (env : environment) (fuel : nat)
    (step_counter total_steps : nat) (next_version : string) (m : machine)
    : option (option exit * machine) :=
  let m := emit [StepRule step_counter total_steps next_version; ComposeDown] m in
  match check_call (compose_down env step_counter) with
  | CalledProcessError => Some (Some (StopFailed step_counter), m)
  | SpawnFailure => Some (Some (Uncaught OSError), m)
  | Done =>
      let m := emit [Sleep 30] m in
      let m := update_image next_version "nextcloud-fpm" m in
      let m := update_image next_version "nextcloud-cron" m in
      let m := emit [ComposeUp] m in
      match check_call (compose_up env step_counter) with
      | CalledProcessError => Some (Some (StartFailed step_counter), m)
      | SpawnFailure => Some (Some (Uncaught OSError), m)
      | Done =>
          let m := emit [Sleep 60] m in
          polls ← wait_for_nextcloud_status fuel (status_php env step_counter) 0;
          let m := emit polls m in
          match fpm_container env step_counter with
          | Some container_id =>
              let '(events, r) := run_occ_commands (occ env step_counter) in
              let m := emit events m in
              match r with
              | Raise e => Some (Some (Uncaught e), m)
              | Ok _ => Some (None, emit [StepCompleted step_counter next_version] m)
              end
          | None =>
              Some (None, emit [ContainerNotFound;
                                StepCompleted step_counter next_version] m)
          end
      end
  end.

Fixpoint for_steps (env : environment) (fuel : nat) (step_counter total_steps : nat)
    (update_path : list string) (m : machine) : option (exit * machine) :=
  match update_path with
  | [] => Some (Completed, m)
  | next_version :: rest =>
      match upgrade_step env fuel step_counter total_steps next_version m with
      | None => None
      | Some (Some x, m') => Some (x, m')
      | Some (None, m') => for_steps env fuel (S step_counter) total_steps rest m'
      end
  end.

(** [run_update_process] on a compose file; [fuel] bounds the number of
    status requests of one step.  [None]: the run is still polling. *)
Definition run_update_process (env : environment) (fuel : nat) (file : compose_file)
    : option (exit * machine) :=
  let m := {| compose := file; log := [] |} in
  available_versions ← fetch_nextcloud_fpm_versions (hub env);
  match plan_update (installed_version env) available_versions (mode env) with
  | PlanComparisonError => Some (ComparisonError, m)
  | PlanNoNewerVersion => Some (NoNewerVersion, m)
  | PlanUncaught e => Some (Uncaught e, m)
  | Plan _ [] => Some (NoStepsRequired, m)
  | Plan _ update_path => for_steps env fuel 1 (length update_path) update_path m
  end.

End run.

(** ** Running containers *)

(** [c in s] for a character. *)
Fixpoint has_char (c : Ascii.ascii) (s : string) : bool :=
  match s with
  | EmptyString => false
  | String a s' => Ascii.eqb a c || has_char c s'
  end.

(** [s.split(sep)[-1]] for a separator of one character: what follows
    the last separator, the whole string when there is none.  [field]
    holds the characters read since the last separator. *)
Fixpoint last_field_from (sep : Ascii.ascii) (field s : string) : string :=
  match s with
  | EmptyString => field
  | String a s' =>
      if Ascii.eqb a sep then last_field_from sep EmptyString s'
      else last_field_from sep (field +:+ String a EmptyString) s'
  end.

Definition last_field (sep : Ascii.ascii) (s : string) : string :=
  last_field_from sep EmptyString s.

Definition colon : Ascii.ascii := Ascii.ascii_of_nat 58.

(** A running container as the Docker client lists it: [container.name],
    [container.id] and [container.attrs["Config"]["Image"]]. *)
Record container := {
  container_name : string;
  container_id : string;
  container_image : string;
}.

(** [for container in client.containers.list(): if service_substring in
    container.name: ...]: the container the loop stops at. *)
Fixpoint first_container (service_substring : string) (containers : list container)
    : option container :=
  match containers with
  | [] => None
  | c :: rest =>
      if Py.contains service_substring (container_name c) then Some c
      else first_container service_substring rest
  end.

(** [detect_version] (lines 755-772).  [docker] is what
    [client.containers.list()] gives: the running containers or an
    exception.  (The client itself is created outside the [try].) *)
Definition detect_version (docker : result (list container))
    (service_substring : string) : string :=
  match docker with
  | Raise _ => "unknown"
  | Ok containers =>
      match first_container service_substring containers with
      | Some c => last_field colon (container_image c)
      | None => "unknown"
      end
  end.

(** [get_container_id] (lines 824-837). *)
Definition get_container_id (docker : result (list container))
    (service_substring : string) : option string :=
  match docker with
  | Raise _ => None
  | Ok containers => container_id <$> first_container service_substring containers
  end.

(** ** The additional services *)

(** How [update_additional_container] ends. *)
Inductive additional_exit :=
  | NoValidVersions       (* "No valid versions found for ...", return *)
  | AlreadyUpToDate       (* "... is already up-to-date ...", return *)
  | UpdateDeclined        (* the operator answered no *)
  | ServiceUpdated        (* "... updated successfully to version ..." *)
  | ServiceUpdateFailed   (* "Failed to update ...": docker-compose exited non-zero *)
  | AdditionalUncaught (e : exn).   (* an exception leaves the function *)

Section additional.
Context `{PackagingVersion V} `{SetOrder}.

(** [update_additional_container] (lines 925-949): how it ends and the
    compose file it leaves.  [confirm] is the answer to [Confirm.ask],
    [up] what [docker-compose up -d nextcloud-<service_key>] meets. *)
Definition update_additional_container (service_key docker_repo : string)
    (docker : result (list container)) (hub : registry) (confirm : bool)
    (up : process) (file : compose_file) : option (additional_exit * compose_file) :=
  let current := detect_version docker ("nextcloud-" +:+ service_key) in
  versions ← fetch_semver_versions hub docker_repo 10 default_filter;
  Some
    match versions with
    | [] => (NoValidVersions, file)
    | latest_version :: _ =>
        match Version latest_version, Version current with
        | Some latest, Some installed =>
            if version_le latest installed then (AlreadyUpToDate, file)
            else if confirm then
              let file' :=
                (update_docker_compose_images latest_version
                   ("nextcloud-" +:+ service_key) file).1 in
              match check_call up with
              | Done => (ServiceUpdated, file')
              | CalledProcessError => (ServiceUpdateFailed, file')
              | SpawnFailure => (AdditionalUncaught OSError, file')
              end
            else (UpdateDeclined, file)
        | _, _ => (AdditionalUncaught InvalidVersion, file)
        end
    end.

End additional.

(** ** The whole update *)



Section whole_update.
Context `{PackagingVersion V} `{SetOrder}.



End whole_update.

(** ** Building the compose document *)

(** [path.endswith("/")] *)
Definition ends_with_slash (s : string) : bool :=
  match last (String.list_ascii_of_string s) with
  | Some c => Ascii.eqb c (Ascii.ascii_of_nat 47)
  | None => false
  end.

(** [os.path.join(path, b)] on a POSIX system. *)
Definition path_join2 (path b : string) : string :=
  if String.prefix "/" b then b
  else if String.eqb path EmptyString || ends_with_slash path then path +:+ b
  else path +:+ "/" +:+ b.

(** [os.path.join(a, *p)] *)
Definition path_join (a : string) (p : list string) : string := foldl path_join2 a p.

(** [maybe_container_name] (lines 38-43): the version is not used. *)
Definition maybe_container_name (base_name version_str : string) : string :=
  "nextcloud-" +:+ base_name.

(** A dictionary literal. *)
Definition dict (items : list (string * yaml)) : yaml := YMap (list_to_map items).

(** [postgres_healthcheck] (lines 150-161). *)
Definition postgres_healthcheck (pg_user pg_password : string) : yaml :=
  dict [("test", YSeq [YStr "CMD-SHELL";
                       YStr ("pg_isready -U " +:+ pg_user
                             +:+ " -d nextcloud -h 127.0.0.1 || exit 1")]);
        ("interval", YStr "10s");
        ("timeout", YStr "5s");
        ("retries", YInt 5);
        ("start_period", YStr "20s")].

(** The entries of [settings] that [build_compose_services] reads. *)
Record settings := {
  install_nextcloud : bool;
  install_postgres : bool;
  install_redis : bool;
  install_nginx : bool;
  nc_fpm_version : option string;   (* [None] when the function is called *)
}.

(** The operator's answers: to "Do you want to select a version?" and,
    when a version is selected, the entry chosen in the list (an
    exception when the prompt gives no answer). *)
Record answers := {
  select_postgres : bool;
  chosen_postgres : result string;
  select_redis : bool;
  chosen_redis : result string;
  select_nextcloud : bool;
  chosen_nextcloud : result string;
  select_nginx : bool;
  chosen_nginx : result string;
}.

(** [versions[0] if versions else "unknown"] *)
Definition first_or_unknown (versions : list string) : string :=
  match versions with
  | v :: _ => v
  | [] => "unknown"
  end.

(** The version choice for Postgres, Redis and Nginx (lines 571-581,
    598-608, 665-675). *)
Definition choose_version (versions : list string) (select : bool)
    (chosen : result string) : result string :=
  if select then chosen else Ok (first_or_unknown versions).

(** The version choice for Nextcloud (lines 624-640). *)
Definition choose_fpm_version (fpm_tags : list string) (select : bool)
    (chosen : result string) : result string :=
  if select then
    match fpm_tags with
    | [] => Ok "unknown"
    | _ => chosen
    end
  else Ok (first_or_unknown fpm_tags).

(** [f"{x}"] for a value that is a string or [None]. *)
Definition py_format (x : option string) : string :=
  match x with
  | Some s => s
  | None => "None"
  end.

(** [if cond: d[key] = value], for a dictionary under construction. *)
Definition set_if (cond : bool) (key : string) (value : yaml)
    (d : gmap string yaml) : gmap string yaml :=
  if cond then <[key := value]> d else d.

(** A part of a function that may still be running ([None]) or raise,
    followed by the rest of the function. *)
Definition and_then {A B} (m : option (result A)) (f : A -> option (result B))
    : option (result B) :=
  match m with
  | None => None
  | Some (Raise e) => Some (Raise e)
  | Some (Ok a) => f a
  end.

Section building.
Context `{PackagingVersion V} `{SetOrder}.

(** [pg_service] (lines 583-592) *)
Definition postgres_service (pg_version env_file base_path : string) : yaml :=
  YMap (<["container_name" := YStr (maybe_container_name "postgres" pg_version)]>
    (list_to_map
       [("image", YStr ("postgres:" +:+ pg_version));
        ("restart", YStr "unless-stopped");
        ("volumes", YSeq [YStr (path_join base_path ["data"; "nc_postgres"]
                                +:+ ":/var/lib/postgresql/data:Z")]);
        ("env_file", YSeq [YStr env_file]);
        ("healthcheck", postgres_healthcheck "nextcloud" "${POSTGRES_PASSWORD}")])).

(** [redis_service] (lines 610-619) *)
Definition redis_service (redis_version env_file base_path : string) : yaml :=
  YMap (<["container_name" := YStr (maybe_container_name "redis" redis_version)]>
    (list_to_map
       [("image", YStr ("redis:" +:+ redis_version));
        ("restart", YStr "unless-stopped");
        ("volumes", YSeq [YStr (path_join base_path ["data"; "nc_redis"] +:+ ":/data")]);
        ("env_file", YSeq [YStr env_file]);
        ("command", YSeq [YStr "redis-server"; YStr "--appendonly"; YStr "yes";
                          YStr "--requirepass"; YStr "${REDIS_PASS}"])])).

(** [nc_service] (lines 641-659) *)
Definition nc_service (s : settings) (fpm_version env_file base_path : string) : yaml :=
  YMap (<["container_name" := YStr (maybe_container_name "nextcloud-fpm" fpm_version)]>
    (list_to_map
       [("image", YStr ("nextcloud:" +:+ fpm_version));
        ("restart", YStr "unless-stopped");
        ("env_file", YSeq [YStr env_file]);
        ("volumes",
         YSeq [YStr (path_join base_path ["data"; "nc_html"] +:+ ":/var/www/html:z");
               YStr (path_join base_path ["data"; "nc_config"]
                     +:+ ":/var/www/html/config:z");
               YStr (path_join base_path ["data"; "nc_custom_apps"]
                     +:+ ":/var/www/html/custom_apps:z");
               YStr (path_join base_path ["data"; "nc_data"]
                     +:+ ":/var/www/html/data:z")]);
        ("depends_on",
         YMap (set_if (install_redis s) "redis"
                 (dict [("condition", YStr "service_started")])
                 (set_if (install_postgres s) "postgres"
                    (dict [("condition", YStr "service_healthy")]) ∅)))])).

(** [nginx_service] (lines 677-690) *)
Definition nginx_service (s : settings) (nginx_version nginx_http_port nginx_https_port
    env_file base_path : string) : yaml :=
  YMap (<["container_name" := YStr (maybe_container_name "nginx" nginx_version)]>
    (list_to_map
       [("build", YStr (path_join base_path ["nextcloud-ngnix"]));
        ("restart", YStr "unless-stopped");
        ("env_file", YSeq [YStr env_file]);
        ("ports", YSeq [YStr (nginx_http_port +:+ ":80");
                        YStr (nginx_https_port +:+ ":443")]);
        ("volumes",
         YSeq [YStr (path_join base_path ["data"; "nc_html"] +:+ ":/var/www/html:z")]);
        ("image", YStr "ghcr.io/nextcloud-cli/nextcloud-ngnix:latest");
        ("depends_on",
         YMap (set_if (install_nextcloud s) "nextcloud-fpm"
                 (dict [("condition", YStr "service_started")]) ∅))])).

(** [cron_service] (lines 694-704); [fpm_version] is
    [settings["nc_fpm_version"]] at that point. *)
Definition cron_service (fpm_version : option string) (base_path : string) : yaml :=
  dict [("container_name",
         YStr (maybe_container_name "nextcloud-cron" (py_format fpm_version)));
        ("image", YStr ("nextcloud:" +:+ py_format fpm_version));
        ("restart", YStr "always");
        ("volumes",
         YSeq [YStr (path_join base_path ["data"; "nc_html"] +:+ ":/var/www/html:z")]);
        ("entrypoint", YStr "/cron.sh");
        ("depends_on",
         dict [("postgres", dict [("condition", YStr "service_healthy")]);
               ("redis", dict [("condition", YStr "service_started")])])].

(** [build_compose_services] (lines 561-707): the dictionary returned,
    or the exception of a prompt; [None] stands for a fetch that is
    still running.  The second component carried from the Nextcloud
    part on is [settings["nc_fpm_version"]], which that part
    overwrites. *)
Definition build_compose_services (s : settings) (hub : registry) (a : answers)
    (nginx_http_port nginx_https_port env_file base_path : string)
    : option (result yaml) :=
  (* PostgreSQL Service *)
  and_then
    (if install_postgres s then
       postgres_versions ← fetch_semver_versions hub POSTGRES_REPO 10 default_filter;
       Some (pg_version ← choose_version postgres_versions (select_postgres a)
                             (chosen_postgres a);
             Ok (<["nextcloud-postgres" := postgres_service pg_version env_file base_path]>
                   (∅ : gmap string yaml)))
     else Some (Ok ∅)) (fun services =>
  (* Redis Service *)
  and_then
    (if install_redis s then
       redis_versions ← fetch_semver_versions hub REDIS_REPO 10 default_filter;
       Some (redis_version ← choose_version redis_versions (select_redis a)
                                (chosen_redis a);
             Ok (<["nextcloud-redis" := redis_service redis_version env_file base_path]>
                   services))
     else Some (Ok services)) (fun services =>
  (* Nextcloud-FPM Service *)
  and_then
    (if install_nextcloud s then
       fpm_tags ← fetch_nextcloud_fpm_versions hub;
       Some (version ← choose_fpm_version fpm_tags (select_nextcloud a)
                          (chosen_nextcloud a);
             Ok (Some version,
                 <["nextcloud-fpm" := nc_service s version env_file base_path]> services))
     else Some (Ok (nc_fpm_version s, services))) (fun '(fpm_version, services) =>
  (* Nginx Service *)
  and_then
    (if install_nginx s then
       nginx_versions ← fetch_semver_versions hub NGINX_REPO 10 default_filter;
       Some (nginx_version ← choose_version nginx_versions (select_nginx a)
                                (chosen_nginx a);
             Ok (<["nextcloud-nginx" :=
                     nginx_service s nginx_version nginx_http_port nginx_https_port
                       env_file base_path]> services))
     else Some (Ok services)) (fun services =>
  (* Cron Service for Nextcloud *)
  Some (Ok (dict [("services",
                   YMap (<["nextcloud-cron" := cron_service fpm_version base_path]>
                           services))])))))).

End building.

(** ** Notions used in the statements *)

Section notions.
Context `{PackagingVersion V}.

(** [x] may stand before [y] in the result of [sorted]. *)
Definition in_order (reverse : bool) (x y : V * string) : Prop :=
  goes_after reverse x y = false.

(** Every pair carries the key of its tag. *)
Definition keyed (key : string -> option V) (d : list (V * string)) : Prop :=
  Forall (fun kx => key kx.2 = Some kx.1) d.

(** [a] parses to a smaller version than [b]; to a version that is not
    greater. *)
Definition key_lt (key : string -> option V) (a b : string) : Prop :=
  exists ka kb, key a = Some ka /\ key b = Some kb /\ version_lt ka kb = true.
Definition key_le (key : string -> option V) (a b : string) : Prop :=
  exists ka kb, key a = Some ka /\ key b = Some kb /\ version_le ka kb = true.

(** Strictly ascending and strictly descending by parsed version. *)
Definition ascending (key : string -> option V) (l : list string) : Prop :=
  StronglySorted (key_lt key) l.
Definition descending (key : string -> option V) (l : list string) : Prop :=
  StronglySorted (flip (key_lt key)) l.

Definition weakly_descending (key : string -> option V) (tags : list string) : Prop :=
  StronglySorted (fun a b => ~ key_lt key a b) tags.

(** The major version a tag parses to. *)
Definition tag_major (key : string -> option V) (t : string) : option nat :=
  major <$> key t.

(** No tag of [all] with the major of a tag of [L] parses higher than it. *)
Definition highest_per_major (key : string -> option V) (all L : list string) : Prop :=
  forall t u vt vu, t ∈ L -> u ∈ all ->
    key t = Some vt -> key u = Some vu -> major vu = major vt ->
    version_lt vt vu = false.

(** Every entry of the dictionary is filed under the major of its tag. *)
Definition filed (key : string -> option V) (distinct : list (nat * string)) : Prop :=
  Forall (fun e => exists v, key e.2 = Some v /\ major v = e.1) distinct.

(** The entries are at least as high as the tags of their major in [tags]. *)
Definition covers (key : string -> option V) (distinct : list (nat * string))
    (tags : list string) : Prop :=
  forall mj t u vt vu, (mj, t) ∈ distinct -> u ∈ tags ->
    key t = Some vt -> key u = Some vu -> major vu = mj -> version_lt vt vu = false.

(** What the two fetch functions return for the tags [all_versions] the
    paging loop collected: tags of [all_versions], all with a version,
    one per major, the highest of its major, in strictly descending
    order, and no more than [max_count] of them (one when [max_count]
    is below one: the bound is tested after the first insertion). *)
Definition catalogue (key : string -> option V) (max_count : Z)
    (all_versions L : list string) : Prop :=
  L ⊆ all_versions
  /\ Forall (fun t => is_Some (key t)) L
  /\ NoDup (tag_major key <$> L)
  /\ highest_per_major key all_versions L
  /\ descending key L
  /\ (Z.of_nat (length L) <= Z.max 1 max_count)%Z.

End notions.

(** A response on which the body of the [try] raises. *)
Definition unusable (r : response) : Prop :=
  match r with
  | Body results _ => BadItem ∈ results
  | _ => True
  end.

(** The states [(page, all_versions)] in which the paging loop evaluates
    its test. *)
Inductive at_test (keep : string -> bool) (hub : nat -> response)
    : nat -> list string -> Prop :=
  | at_test_first : at_test keep hub 1 []
  | at_test_again page all_versions page' all_versions' :
      at_test keep hub page all_versions ->
      page_cond page all_versions = true ->
      page_turn keep hub page all_versions = Ok (Continue (page', all_versions')) ->
      at_test keep hub page' all_versions'.

(** The four ways in which the loop is left without an exception: an
    empty page, no [next], the page ceiling, a hundred collected tags. *)
Definition stops_at (hub : nat -> response) (page : nat) (all_versions : list string) : Prop :=
  (exists next, hub page = Body [] next)
  \/ (exists results, hub page = Body results false)
  \/ MAX_PAGE < page
  \/ 100 <= length all_versions.


(** The entry of a service. *)
Definition service_entry (service : string) (compose_data : yaml) : option yaml :=
  compose_services compose_data ≫= fun services => services !! service.

(** One field of the entry of a service. *)
Definition service_field (service field : string) (compose_data : yaml) : option yaml :=
  match service_entry service compose_data with
  | Some (YMap entry) => entry !! field
  | _ => None
  end.

(** The file holds a document in which [service] has a mapping. *)
Definition has_service (service : string) (file : compose_file) : Prop :=
  exists compose_data entry,
    file = Some compose_data /\ service_entry service compose_data = Some (YMap entry).

(** The compose file after the two calls of a step. *)
Definition after_updates (v : string) (file : compose_file) : compose_file :=
  (update_docker_compose_images v "nextcloud-cron"
     (update_docker_compose_images v "nextcloud-fpm" file).1).1.

(** The maintenance commands as the specification words them, read with
    the code's handling of a failure: the commands in order, sixty
    seconds between two of them, up to the first one that does not exit
    with status zero. *)
Fixpoint maintenance (exec : occ_command -> process) (commands : list occ_command)
    : list event :=
  match commands with
  | [] => []
  | c :: rest =>
      Occ c ::
      match check_call (exec c) with
      | Done =>
          match rest with
          | [] => []
          | _ => Sleep 60 :: maintenance exec rest
          end
      | CalledProcessError => [OccError]
      | SpawnFailure => []
      end
  end.

(** An event that a turn of the step loop for step [i] and version [v]
    may add. *)
Definition step_event (i : nat) (v : string) (e : event) : Prop :=
  match e with
  | StepRule j _ w => j = i /\ w = v
  | ImageUpdated _ w => w = v
  | StepCompleted j w => j = i /\ w = v
  | _ => True
  end.

(** ** Further notions *)

Section further_notions.
Context `{PackagingVersion V}.

(** The major of the tag [u] is the major of a tag of [L]. *)
Definition major_listed (key : string -> option V) (L : list string) (u : string) : Prop :=
  tag_major key u ∈ tag_major key <$> L.

(** The first tag of [L] parses to a version that no tag of [all]
    exceeds. *)
Definition headed_by_highest (key : string -> option V) (all L : list string) : Prop :=
  exists t vt L', L = t :: L' /\ key t = Some vt
    /\ forall u vu, u ∈ all -> key u = Some vu -> version_lt vt vu = false.

(** A tag of [all] whose major is not in [L] was left out because [L]
    was full, and it is not higher than any tag of [L]. *)
Definition left_out_below (key : string -> option V) (max_count : Z)
    (all L : list string) : Prop :=
  forall u vu, u ∈ all -> key u = Some vu -> ~ major_listed key L u ->
    (max_count <= Z.of_nat (length L))%Z
    /\ forall t vt, t ∈ L -> key t = Some vt -> version_lt vt vu = false.

End further_notions.

(** The tag an element of ["results"] stands for. *)
Definition item_tag (item : json_item) : string :=
  match item with
  | Tag name => name
  | _ => EmptyString
  end.

(** The tags of one page that pass the test [keep], in the order of the
    page. *)
Definition page_tags (keep : string -> bool) (r : response) : list string :=
  match r with
  | Body results _ => filter (fun t => keep t = true) (item_tag <$> results)
  | _ => []
  end.

(** The same for [n] consecutive pages, from page [first] on. *)
Definition pages_tags (keep : string -> bool) (hub : nat -> response)
    (first n : nat) : list string :=
  seq first n ≫= fun q => page_tags keep (hub q).

(** The document in which the image of [service] is
    ["nextcloud:<new_version>"], read off the shape of the document: the
    image is replaced when the document, its services and the entry of
    the service are mappings, and the file is as before otherwise. *)
Definition image_replaced (new_version service : string) (file : compose_file)
    : compose_file :=
  match file with
  | Some (YMap top) =>
      match top !! "services" with
      | Some (YMap services) =>
          match services !! service with
          | Some (YMap entry) =>
              Some (YMap (<["services" := YMap (<[service :=
                 YMap (<["image" := YStr ("nextcloud:" +:+ new_version)]> entry)]>
                 services)]> top))
          | _ => file
          end
      | _ => file
      end
  | _ => file
  end.

(** The compose file after the steps for [versions], in order. *)
Definition after_steps (versions : list string) (file : compose_file) : compose_file :=
  foldl (fun f v => after_updates v f) file versions.

(** The steps a log declares completed, in order. *)
Definition completed_steps (events : list event) : list (nat * string) :=
  omap (fun e => match e with
                 | StepCompleted j w => Some (j, w)
                 | _ => None
                 end) events.

(** The events of a polling loop whose first [failed] requests find the
    server not ready and whose next request finds it ready. *)
Definition polls_until_ready (failed : nat) : list event :=
  mjoin (replicate failed [StatusRequest; Sleep 30]) ++ [StatusRequest].




(** ** Concrete inputs *)

(** Two pages of tags; the second one is the last. *)
Definition hub_two_pages : registry := fun _ page =>
  match page with
  | 1 => Body [Tag "29.0.4-fpm"; Tag "29.0.4-apache"; Tag "29-fpm"; Tag "latest";
               Tag "28.0.8-fpm"; Unnamed; Tag "30.0.0rc1-fpm"] true
  | 2 => Body [Tag "27.1.11-fpm"; Tag "28.0.8-fpm"; Tag "28.0.9-fpm"] false
  | _ => NoResponse
  end.

(** Every page holds the same fifty tags and announces a next page. *)
Definition hub_full_pages : registry := fun _ _ =>
  Body (replicate 50 (Tag "29-fpm")) true.

(** The first page is fine, the request for the second one is answered
    with an error status. *)
Definition hub_second_page_fails : registry := fun _ page =>
  match page with
  | 1 => Body [Tag "29.0.4-fpm"; Tag "16.3"] true
  | _ => ErrorStatus
  end.

(** One page with four majors. *)
Definition hub_four_majors : registry := fun _ page =>
  match page with
  | 1 => Body [Tag "18-fpm"; Tag "19-fpm"; Tag "20-fpm"; Tag "21-fpm"] false
  | _ => NoResponse
  end.

(** The registry cannot be reached. *)
Definition hub_unreachable : registry := fun _ _ => NoResponse.

Definition status_ok : string :=
  "{" +:+ dquote +:+ "installed" +:+ dquote +:+ ":true,"
  +:+ dquote +:+ "maintenance" +:+ dquote +:+ ":false,"
  +:+ dquote +:+ "needsDbUpgrade" +:+ dquote +:+ ":false}".

(** Version 18 is installed, everything outside works, the first status
    request of a step is not answered. *)
Definition env_fine : environment :=
  {| installed_version := "18-fpm";
     hub := hub_four_majors;
     mode := Specific "20-fpm";
     compose_down := fun _ => Exited 0;
     compose_up := fun _ => Exited 0;
     status_php := fun _ attempt =>
       match attempt with
       | 0 => None
       | _ => Some status_ok
       end;
     fpm_container := fun _ => Some "4f1d";
     occ := fun _ _ => Exited 0 |}.

(** As [env_fine], but the containers of the second step do not start. *)
Definition env_start_fails : environment :=
  {| installed_version := "18-fpm";
     hub := hub_four_majors;
     mode := Latest;
     compose_down := fun _ => Exited 0;
     compose_up := fun step =>
       match step with
       | 2 => Exited 1
       | _ => Exited 0
       end;
     status_php := status_php env_fine;
     fpm_container := fun _ => Some "4f1d";
     occ := fun _ _ => Exited 0 |}.

(** As [env_fine], but version 20 is installed, one step is to do, and
    [occ db:add-missing-indices] exits with status 1. *)
Definition env_occ_fails : environment :=
  {| installed_version := "20-fpm";
     hub := hub_four_majors;
     mode := Latest;
     compose_down := fun _ => Exited 0;
     compose_up := fun _ => Exited 0;
     status_php := fun _ _ => Some status_ok;
     fpm_container := fun _ => Some "4f1d";
     occ := fun _ command =>
       match command with
       | DbAddMissingIndices => Exited 1
       | _ => Exited 0
       end |}.

(** Version 20 is installed and everything outside works. *)
Definition env_one_step : environment :=
  {| installed_version := "20-fpm";
     hub := hub_four_majors;
     mode := Latest;
     compose_down := fun _ => Exited 0;
     compose_up := fun _ => Exited 0;
     status_php := fun _ _ => Some status_ok;
     fpm_container := fun _ => Some "4f1d";
     occ := fun _ _ => Exited 0 |}.

(** The installed version could not be detected and the registry cannot
    be reached. *)
Definition env_unknown : environment :=
  {| installed_version := "unknown";
     hub := hub_unreachable;
     mode := Latest;
     compose_down := fun _ => Exited 0;
     compose_up := fun _ => Exited 0;
     status_php := fun _ _ => Some status_ok;
     fpm_container := fun _ => Some "4f1d";
     occ := fun _ _ => Exited 0 |}.

(** As [env_unknown], with a registry that answers. *)
Definition env_unknown_online : environment :=
  {| installed_version := "unknown";
     hub := hub_four_majors;
     mode := Latest;
     compose_down := fun _ => Exited 0;
     compose_up := fun _ => Exited 0;
     status_php := fun _ _ => Some status_ok;
     fpm_container := fun _ => Some "4f1d";
     occ := fun _ _ => Exited 0 |}.

Definition fpm_entry : gmap string yaml :=
  <["image" := YStr "nextcloud:18-fpm"]>
    (<["restart" := YStr "unless-stopped"]>
       (<["container_name" := YStr "nextcloud-nextcloud-fpm"]> ∅)).

Definition postgres_entry : gmap string yaml :=
  <["image" := YStr "postgres:16.3"]> (<["restart" := YStr "unless-stopped"]> ∅).

Definition example_services : gmap string yaml :=
  <["nextcloud-fpm" := YMap fpm_entry]> (<["nextcloud-postgres" := YMap postgres_entry]> ∅).

(** A compose file with the application server and the database, and
    without the cron service. *)
Definition example_compose : yaml := YMap (<["services" := YMap example_services]> ∅).

(** A registry with the four repositories of the program, one page
    each. *)
Definition hub_library : registry := fun docker_repo page =>
  match page with
  | 1 =>
      if String.eqb docker_repo NEXTCLOUD_REPO then
        Body [Tag "28.0.8-fpm"; Tag "29.0.4-fpm"; Tag "29.0.4-apache"] false
      else if String.eqb docker_repo POSTGRES_REPO then
        Body [Tag "16.2"; Tag "16.3"; Tag "15.7"; Tag "latest"; Tag "14.12"] false
      else if String.eqb docker_repo REDIS_REPO then
        Body [Tag "7.2.5"; Tag "7.2"; Tag "6.2.14"] false
      else Body [Tag "1.27.0"; Tag "1.26.1"; Tag "stable"] false
  | _ => NoResponse
  end.

(** As [env_start_fails], but it is the containers of the second step
    that cannot be stopped. *)
Definition env_stop_fails : environment :=
  {| installed_version := "18-fpm";
     hub := hub_four_majors;
     mode := Latest;
     compose_down := fun step =>
       match step with
       | 2 => Exited 1
       | _ => Exited 0
       end;
     compose_up := fun _ => Exited 0;
     status_php := status_php env_fine;
     fpm_container := fun _ => Some "4f1d";
     occ := fun _ _ => Exited 0 |}.

(** As [env_one_step], but no container of the application server is
    found after the start. *)
Definition env_no_container : environment :=
  {| installed_version := "20-fpm";
     hub := hub_four_majors;
     mode := Latest;
     compose_down := fun _ => Exited 0;
     compose_up := fun _ => Exited 0;
     status_php := fun _ _ => Some status_ok;
     fpm_container := fun _ => None;
     occ := fun _ _ => Exited 0 |}.

(** The highest version on offer is installed. *)
Definition env_up_to_date : environment :=
  {| installed_version := "21-fpm";
     hub := hub_four_majors;
     mode := Latest;
     compose_down := fun _ => Exited 0;
     compose_up := fun _ => Exited 0;
     status_php := fun _ _ => Some status_ok;
     fpm_container := fun _ => Some "4f1d";
     occ := fun _ _ => Exited 0 |}.

Definition fpm_container_21 : container :=
  {| container_name := "nextcloud-nextcloud-fpm"; container_id := "4f1d";
     container_image := "nextcloud:21-fpm" |}.

(** The containers of an installation: the image of nginx is tagged
    "latest", the registry of the cron image has a port. *)
Definition running_containers : list container :=
  [ {| container_name := "nextcloud-nextcloud-cron"; container_id := "a1c0";
       container_image := "registry.local:5000/nextcloud:21-fpm" |};
    fpm_container_21;
    {| container_name := "nextcloud-postgres"; container_id := "77e2";
       container_image := "postgres:15.7" |};
    {| container_name := "nextcloud-nginx"; container_id := "0b9d";
       container_image := "ghcr.io/nextcloud-cli/nextcloud-ngnix:latest" |} ].

(** The automatic installation of [prompt_installation_settings]. *)
Definition all_installed : settings :=
  {| install_nextcloud := true; install_postgres := true; install_redis := true;
     install_nginx := true; nc_fpm_version := None |}.

(** No version is selected by hand. *)
Definition defaults : answers :=
  {| select_postgres := false; chosen_postgres := Raise KeyError;
     select_redis := false; chosen_redis := Raise KeyError;
     select_nextcloud := false; chosen_nextcloud := Raise KeyError;
     select_nginx := false; chosen_nginx := Raise KeyError |}.



(** ** A runnable [PackagingVersion]: release numbers

    The versions written [N(.N)*] (digits and dots only), compared as
    [packaging] compares their release tuples: trailing zeros dropped,
    then lexicographically.  Every other string is rejected; the tags
    used in the examples below stay inside this fragment. *)

Module Release.

Definition digit (c : Ascii.ascii) : option nat :=
  let n := Ascii.nat_of_ascii c in
  if (48 <=? n) && (n <=? 57) then Some (n - 48) else None.

Fixpoint number_from (acc : nat) (s : string) : option nat :=
  match s with
  | EmptyString => Some acc
  | String c s' =>
      match digit c with
      | Some d => number_from (10 * acc + d) s'
      | None => None
      end
  end.

Definition number (s : string) : option nat :=
  match s with
  | EmptyString => None
  | _ => number_from 0 s
  end.

Fixpoint split_dots (cur s : string) : list string :=
  match s with
  | EmptyString => [cur]
  | String c s' =>
      if Ascii.eqb c (Ascii.ascii_of_nat 46) then cur :: split_dots EmptyString s'
      else split_dots (cur +:+ String c EmptyString) s'
  end.

Fixpoint strip_zeros (l : list nat) : list nat :=
  match l with
  | [] => []
  | x :: l' =>
      match x, strip_zeros l' with
      | O, [] => []
      | _, r => x :: r
      end
  end.

Definition parse (s : string) : option (list nat) :=
  strip_zeros <$> mapM number (split_dots EmptyString s).

Fixpoint lt (a b : list nat) : bool :=
  match a, b with
  | [], [] => false
  | [], _ :: _ => true
  | _ :: _, [] => false
  | x :: a', y :: b' =>
      if x <? y then true else if y <? x then false else lt a' b'
  end.

Lemma lt_irrefl a : lt a a = false.
Proof.
  induction a as [|x a IH]; simpl; [done|].
  by rewrite Nat.ltb_irrefl.
Qed.

Lemma lt_trans a b c : lt a b = true -> lt b c = true -> lt a c = true.
Proof.
  revert b c. induction a as [|x a IH]; intros [|y b] [|z c]; simpl; try done.
  destruct (Nat.ltb_spec x y), (Nat.ltb_spec y x), (Nat.ltb_spec y z),
    (Nat.ltb_spec z y), (Nat.ltb_spec x z), (Nat.ltb_spec z x);
    try done; try lia.
  apply IH.
Qed.

Lemma lt_total a b : lt a b = false -> lt b a = false -> a = b.
Proof.
  revert b. induction a as [|x a IH]; intros [|y b]; simpl; try done.
  destruct (Nat.ltb_spec x y), (Nat.ltb_spec y x); try done; try lia.
  intros Hab Hba. f_equal; [lia|]. by apply IH.
Qed.

#[global] Instance release_version : PackagingVersion (list nat) :=
  {| Version := parse;
     version_lt := lt;
     major := fun v => hd 0 v;
     version_lt_irrefl := lt_irrefl;
     version_lt_trans := lt_trans;
     version_lt_total := lt_total |}.

End Release.

(** A runnable [SetOrder]: first occurrence first. *)
#[global] Instance first_seen_order : SetOrder :=
  {| set_iter := remove_dups;
     set_iter_NoDup := NoDup_remove_dups;
     set_iter_elem := fun l x => elem_of_remove_dups l x |}.

(** ** Properties *)

(** ** The model on small inputs *)

Example replace_fpm : Py.replace "-fpm" EmptyString "29.0.4-fpm" = "29.0.4".
Proof. reflexivity. Qed.

Example replace_twice : Py.replace "ab" "x" "cababab-ab" = "cxxx-x".
Proof. reflexivity. Qed.

Example contains_rc : Py.contains "rc" "30.0.0rc1-fpm" = true.
Proof. reflexivity. Qed.

Example contains_not : Py.contains "fpm" "29.0.4-apache" = false.
Proof. reflexivity. Qed.

Example sorted_descending :
  sorted Version true ["27.1.11"; "29.0.4"; "28.0"; "29"; "28.0.8"]
  = Ok ["29.0.4"; "29"; "28.0.8"; "28.0"; "27.1.11"].
Proof. reflexivity. Qed.

Example sorted_stable :
  sorted Version true ["29"; "29.0"; "30"; "29.0.0"] = Ok ["30"; "29"; "29.0"; "29.0.0"]
  /\ sorted Version false ["29"; "29.0"; "30"; "29.0.0"] = Ok ["29"; "29.0"; "29.0.0"; "30"].
Proof. split; reflexivity. Qed.

Example sorted_raises : sorted Version true ["29"; "latest"] = Raise InvalidVersion.
Proof. reflexivity. Qed.

Example release_29_0_4 : Version "29.0.4" = Some [29; 0; 4].
Proof. reflexivity. Qed.

Example release_29_0 : Version "29.0" = Version "29".
Proof. reflexivity. Qed.

Example release_unknown : Version "unknown" = (None : option (list nat)).
Proof. reflexivity. Qed.

Example release_fpm_suffix : Version "29.0.4-fpm" = (None : option (list nat)).
Proof. reflexivity. Qed.

(** ** Sorting *)

Section sorted_facts.
Context `{PackagingVersion V}.
Implicit Types (x y : V * string) (l d : list (V * string)) (reverse : bool).

Lemma version_lt_asym (a b : V) : version_lt a b = true -> version_lt b a = false.
Proof.
  intros Hab. destruct (version_lt b a) eqn:Hba; [|done].
  by rewrite <-(version_lt_irrefl a), (version_lt_trans a b a).
Qed.

Lemma version_nlt_trans (a b c : V) :
  version_lt a b = false -> version_lt b c = false -> version_lt a c = false.
Proof.
  intros Hab Hbc. destruct (version_lt a c) eqn:Hac; [|done].
  destruct (version_lt b a) eqn:Hba.
  - by rewrite (version_lt_trans b a c) in Hbc.
  - rewrite (version_lt_total a b Hab Hba) in Hac. congruence.
Qed.

Lemma in_order_trans reverse x y z :
  in_order reverse x y -> in_order reverse y z -> in_order reverse x z.
Proof.
  unfold in_order, goes_after. destruct reverse; eauto using version_nlt_trans.
Qed.

Lemma goes_after_in_order reverse x y :
  goes_after reverse x y = true -> in_order reverse y x.
Proof. unfold in_order, goes_after. destruct reverse; apply version_lt_asym. Qed.

Lemma insert_sorted_Permutation reverse x l : insert_sorted reverse x l ≡ₚ x :: l.
Proof.
  induction l as [|y l IH]; simpl; [done|].
  destruct (goes_after reverse x y); [|done].
  by rewrite IH, Permutation_swap.
Qed.

Lemma sort_keyed_Permutation reverse l : sort_keyed reverse l ≡ₚ l.
Proof.
  induction l as [|x l IH]; simpl; [done|].
  by rewrite insert_sorted_Permutation, IH.
Qed.

Lemma insert_sorted_StronglySorted reverse x l :
  StronglySorted (in_order reverse) l ->
  StronglySorted (in_order reverse) (insert_sorted reverse x l).
Proof.
  induction 1 as [|y l Hl IH Hy]; simpl; [repeat constructor|].
  destruct (goes_after reverse x y) eqn:Hxy.
  - constructor; [done|].
    rewrite insert_sorted_Permutation. constructor; [|done].
    by apply goes_after_in_order.
  - constructor; [by constructor|]. constructor; [done|].
    eapply Forall_impl; [done|]. intros z Hz. by eapply in_order_trans.
Qed.

Lemma sort_keyed_StronglySorted reverse l :
  StronglySorted (in_order reverse) (sort_keyed reverse l).
Proof.
  induction l as [|x l IH]; simpl; [constructor|].
  by apply insert_sorted_StronglySorted.
Qed.

Lemma decorate_Ok key (l : list string) d :
  decorate key l = Ok d <-> d.*2 = l /\ keyed key d.
Proof.
  revert d. induction l as [|x l IH]; intros d; simpl.
  - split.
    + intros [= <-]. split; [done|constructor].
    + intros [Hd _]. by destruct d.
  - split.
    + unfold with_key. destruct (key x) as [k|] eqn:Hk; simpl; [|done].
      destruct (decorate key l) as [d'|e] eqn:Hd'; simpl; [|done].
      intros [= <-]. destruct (proj1 (IH d') eq_refl) as [<- Hkd].
      split; [done|]. by constructor.
    + intros [Hd Hkd]. destruct d as [|[k' x'] d'']; simplify_eq/=.
      inversion Hkd as [|?? Hk' Hkd']; simplify_eq/=.
      unfold with_key. rewrite Hk'. simpl.
      by rewrite (proj2 (IH d'') (conj eq_refl Hkd')).
Qed.

Lemma decorate_total key (l : list string) :
  Forall (fun t => is_Some (key t)) l -> exists d, decorate key l = Ok d.
Proof.
  induction 1 as [|x l [k Hk] _ [d Hd]]; simpl; [by eexists|].
  unfold with_key. rewrite Hk. simpl. rewrite Hd. by eexists.
Qed.

Lemma sorted_Ok key reverse (l s : list string) :
  sorted key reverse l = Ok s ->
  exists d, s = d.*2 /\ keyed key d /\ StronglySorted (in_order reverse) d /\ s ≡ₚ l.
Proof.
  unfold sorted. destruct (decorate key l) as [d|] eqn:Hd; simpl; [|done].
  intros [= <-]. apply decorate_Ok in Hd as [<- Hk].
  exists (sort_keyed reverse d). split_and!; [done| |apply sort_keyed_StronglySorted|].
  - unfold keyed. by rewrite sort_keyed_Permutation.
  - by rewrite sort_keyed_Permutation.
Qed.

Lemma sorted_total key reverse (l : list string) :
  Forall (fun t => is_Some (key t)) l -> exists s, sorted key reverse l = Ok s.
Proof.
  intros [d Hd]%decorate_total. unfold sorted. rewrite Hd. by eexists.
Qed.

Lemma keyed_tag_major key d : keyed key d -> tag_major key <$> d.*2 = Some <$> (major <$> d.*1).
Proof.
  induction 1 as [|[k x] d Hk _ IH]; [done|].
  rewrite !fmap_cons. f_equal; [|done].
  unfold tag_major. simpl in *. by rewrite Hk.
Qed.

Lemma strictly_sorted key reverse d :
  keyed key d -> StronglySorted (in_order reverse) d -> NoDup (major <$> d.*1) ->
  StronglySorted (if reverse then flip (key_lt key) else key_lt key) d.*2.
Proof.
  intros Hk Hs. induction Hs as [|x l Hl IH Hx]; simpl; [constructor|].
  inversion Hk as [|?? Hkx Hkl]; subst. intros [Hnin Hnd]%NoDup_cons.
  constructor; [by apply IH|].
  rewrite Forall_fmap. rewrite Forall_forall in Hx, Hkl. apply Forall_forall.
  intros y Hy. specialize (Hx y Hy). specialize (Hkl y Hy). simpl in *.
  assert (x.1 <> y.1) as Hne.
  { intros Heq. apply Hnin. rewrite Heq.
    apply list_elem_of_fmap. exists y.1. split; [done|].
    apply list_elem_of_fmap. by exists y. }
  unfold in_order, goes_after in Hx.
  destruct reverse; simpl.
  - exists y.1, x.1. split_and!; [done..|].
    destruct (version_lt y.1 x.1) eqn:Hyx; [done|].
    by destruct Hne; apply version_lt_total.
  - exists x.1, y.1. split_and!; [done..|].
    destruct (version_lt x.1 y.1) eqn:Hxy; [done|].
    by destruct Hne; apply version_lt_total.
Qed.
End sorted_facts.

Section majors_facts.
Context `{PackagingVersion V} `{SetOrder}.
Implicit Types (distinct out : list (nat * string)) (tags : list string).

Lemma NoDup_fst_agree {A B} (l : list (A * B)) x y1 y2 :
  NoDup l.*1 -> (x, y1) ∈ l -> (x, y2) ∈ l -> y1 = y2.
Proof.
  induction l as [|[a b] l IH]; csimpl; intros Hnd H1 H2.
  - by apply elem_of_nil in H1.
  - apply NoDup_cons in Hnd as [Hnin Hnd].
    apply elem_of_cons in H1 as [?|H1], H2 as [?|H2]; simplify_eq; [done| | |by apply IH].
    + destruct Hnin. apply list_elem_of_fmap. by exists (a, y2).
    + destruct Hnin. apply list_elem_of_fmap. by exists (a, y1).
Qed.

Lemma fold_majors_extends key max_count tags distinct out :
  fold_majors key max_count tags distinct = Ok out ->
  exists new, out = distinct ++ new /\ filed key new /\ Forall (fun e => e.2 ∈ tags) new.
Proof.
  revert distinct. induction tags as [|tag rest IH]; intros distinct; simpl.
  - intros [= <-]. exists []. rewrite app_nil_r. by split_and!; [|constructor..].
  - destruct (key tag) as [ver|] eqn:Hkey; [|done].
    set (distinct' := if bool_decide _ then _ else _).
    assert (exists new, distinct' = distinct ++ new /\ filed key new
              /\ Forall (fun e => e.2 ∈ tag :: rest) new) as (new & Hd' & Hf & Hin).
    { subst distinct'. case_bool_decide.
      - exists []. rewrite app_nil_r. by split_and!; [|constructor..].
      - exists [(major ver, tag)]. split_and!; [done| |].
        + constructor; [|constructor]. by exists ver.
        + constructor; [|constructor]. simpl. by left. }
    destruct (max_count <=? _)%Z.
    + intros [= <-]. by exists new.
    + intros (new' & -> & Hf' & Hin')%IH. exists (new ++ new').
      rewrite Hd', <-app_assoc. split_and!; [done|by apply Forall_app|].
      apply Forall_app. split; [done|].
      eapply Forall_impl; [done|]. intros e He. by right.
Qed.

Lemma fold_majors_NoDup key max_count tags distinct out :
  fold_majors key max_count tags distinct = Ok out ->
  NoDup distinct.*1 -> NoDup out.*1.
Proof.
  revert distinct. induction tags as [|tag rest IH]; intros distinct; simpl.
  - by intros [= <-].
  - destruct (key tag) as [ver|] eqn:Hkey; [|done].
    set (distinct' := if bool_decide _ then _ else _).
    intros Hout Hnd.
    assert (NoDup distinct'.*1) as Hnd'.
    { subst distinct'. case_bool_decide; [done|].
      rewrite fmap_app. apply NoDup_app. split_and!; [done| |apply NoDup_singleton].
      intros mj Hmj [->|[]%elem_of_nil]%elem_of_cons. done. }
    destruct (max_count <=? _)%Z; [by simplify_eq|by eapply IH].
Qed.

Lemma fold_majors_length key max_count tags distinct out :
  fold_majors key max_count tags distinct = Ok out ->
  (Z.of_nat (length out) <= Z.max (Z.of_nat (length distinct) + 1) max_count)%Z.
Proof.
  revert distinct. induction tags as [|tag rest IH]; intros distinct; simpl.
  - intros [= <-]. lia.
  - destruct (key tag) as [ver|] eqn:Hkey; [|done].
    set (distinct' := if bool_decide _ then _ else _).
    assert (length distinct' <= length distinct + 1) as Hlen.
    { subst distinct'. case_bool_decide; [lia|]. rewrite length_app. simpl. lia. }
    destruct (Z.leb_spec max_count (Z.of_nat (length distinct'))).
    + intros [= <-]. lia.
    + intros Hout%IH. lia.
Qed.

Lemma fold_majors_covers key max_count tags distinct out :
  fold_majors key max_count tags distinct = Ok out ->
  weakly_descending key tags ->
  NoDup distinct.*1 -> covers key distinct tags -> covers key out tags.
Proof.
  revert distinct. induction tags as [|tag rest IH]; intros distinct; simpl.
  - by intros [= <-].
  - destruct (key tag) as [ver|] eqn:Hkey; [|done].
    set (distinct' := if bool_decide _ then _ else _).
    intros Hout Hsorted Hnd Hcov.
    inversion Hsorted as [|?? Hrest Htag]; subst.
    assert (major ver ∈ distinct'.*1 /\ NoDup distinct'.*1
            /\ covers key distinct' (tag :: rest)) as (Hmaj & Hnd' & Hcov').
    { subst distinct'. case_bool_decide as Hin; [done|].
      split_and!.
      - rewrite fmap_app. apply elem_of_app. right. by left.
      - rewrite fmap_app. apply NoDup_app. split_and!; [done| |apply NoDup_singleton].
        intros mj Hmj [->|[]%elem_of_nil]%elem_of_cons. done.
      - intros mj t u vt vu [Ht|Ht]%elem_of_app Hu Hkt Hku Hvu; [by eapply Hcov|].
        apply list_elem_of_singleton in Ht. injection Ht as -> ->.
        assert (vt = ver) as -> by congruence.
        apply elem_of_cons in Hu as [->|Hu].
        + assert (vu = ver) as -> by congruence. apply version_lt_irrefl.
        + rewrite Forall_forall in Htag. specialize (Htag u Hu).
          destruct (version_lt ver vu) eqn:Hlt; [|done].
          destruct Htag. by exists ver, vu. }
    destruct (max_count <=? _)%Z; [by simplify_eq|].
    pose proof (fold_majors_NoDup _ _ _ _ _ Hout Hnd') as Hndout.
    pose proof (fold_majors_extends _ _ _ _ _ Hout) as (new & -> & _ & _).
    assert (covers key (distinct' ++ new) rest) as Hcovrest.
    { eapply IH; [done..|]. intros mj t u vt vu Ht Hu. eapply Hcov'; [done|by right]. }
    intros mj t u vt vu Ht [->|Hu]%elem_of_cons Hkt Hku Hvu; [|by eapply Hcovrest].
    assert (vu = ver) as -> by congruence. subst mj.
    apply list_elem_of_fmap in Hmaj as ([mj' t'] & Hmj & Ht'). simpl in Hmj. subst mj'.
    assert (t = t') as <-.
    { eapply (NoDup_fst_agree (distinct' ++ new)); [done..|].
      apply elem_of_app. by left. }
    eapply Hcov'; [done|by left|done..].
Qed.

Lemma filed_tag_major key distinct :
  filed key distinct -> tag_major key <$> distinct.*2 = Some <$> distinct.*1.
Proof.
  induction 1 as [|[mj t] d (v & Hk & Hv) _ IH]; [done|].
  rewrite !fmap_cons. f_equal; [|done].
  unfold tag_major. simpl in *. by rewrite Hk, <-Hv.
Qed.

Lemma weakly_descending_sorted key (l s : list string) :
  sorted key true l = Ok s -> weakly_descending key s.
Proof.
  intros (d & -> & Hk & Hs & _)%sorted_Ok.
  induction Hs as [|x d Hd IH Hx]; simpl; [constructor|].
  inversion Hk as [|?? Hkx Hkd]; subst.
  constructor; [by apply IH|].
  rewrite Forall_fmap. rewrite Forall_forall in Hx, Hkd. apply Forall_forall.
  intros y Hy (ka & kb & Ha & Hb & Hlt). simpl in *.
  specialize (Hx y Hy). specialize (Hkd y Hy).
  unfold in_order, goes_after in Hx. congruence.
Qed.

Lemma select_majors_catalogue key max_count (all_versions : list string) :
  Forall (fun t => is_Some (key t)) all_versions ->
  exists L, select_majors key max_count all_versions = Ok L
    /\ catalogue key max_count all_versions L.
Proof.
  intros Hall. unfold select_majors.
  assert (Forall (fun t => is_Some (key t)) (set_iter all_versions)) as Hset.
  { apply Forall_forall. intros t Ht. apply (proj1 (set_iter_elem _ _)) in Ht.
    rewrite Forall_forall in Hall. by apply Hall. }
  destruct (sorted_total key true _ Hset) as [sorted_tags Hsorted].
  rewrite Hsorted. simpl.
  pose proof (weakly_descending_sorted _ _ _ Hsorted) as Hweak.
  apply sorted_Ok in Hsorted as (d & Hd & Hkd & _ & Hperm).
  assert (exists distinct, fold_majors key max_count sorted_tags [] = Ok distinct)
    as [distinct Hfold].
  { assert (Forall (fun t => is_Some (key t)) sorted_tags) as Hst
      by by rewrite Hperm.
    clear -Hst. generalize (@nil (nat * string)).
    induction Hst as [|tag rest [ver Hver] _ IH]; intros distinct; simpl; [by eexists|].
    rewrite Hver. destruct (_ <=? _)%Z; [by eexists|apply IH]. }
  rewrite Hfold. simpl.
  pose proof (fold_majors_extends _ _ _ _ _ Hfold) as (new & Hnew & Hfiled & Hin).
  simpl in Hnew. subst new.
  pose proof (fold_majors_NoDup _ _ _ _ _ Hfold (NoDup_nil_2)) as Hnd.
  pose proof (fold_majors_length _ _ _ _ _ Hfold) as Hlen. simpl in Hlen.
  assert (covers key distinct sorted_tags) as Hcov.
  { eapply fold_majors_covers; [done..|apply NoDup_nil_2|].
    by intros mj t u vt vu ?%elem_of_nil. }
  assert (Forall (fun t => is_Some (key t)) distinct.*2) as Hvals.
  { rewrite Forall_fmap. eapply Forall_impl; [done|].
    intros e (v & Hv & _). by exists v. }
  destruct (sorted_total key true _ Hvals) as [L HL]. exists L. split; [done|].
  apply sorted_Ok in HL as (dL & -> & HkL & HsL & HpL).
  assert (NoDup (tag_major key <$> dL.*2)) as HndL.
  { rewrite HpL, (filed_tag_major _ _ Hfiled). by apply (NoDup_fmap_2 _). }
  split_and!.
  - intros t Ht. rewrite HpL in Ht.
    apply list_elem_of_fmap in Ht as (e & -> & He).
    rewrite Forall_forall in Hin. specialize (Hin e He).
    rewrite Hperm in Hin. by apply (proj1 (set_iter_elem _ _)).
  - rewrite HpL. done.
  - done.
  - intros t u vt vu Ht Hu Hkt Hku Hmaj. rewrite HpL in Ht.
    apply list_elem_of_fmap in Ht as ([mj t'] & -> & He). simpl in *.
    unfold filed in Hfiled. rewrite Forall_forall in Hfiled.
    destruct (Hfiled _ He) as (v & Hv & Hmj).
    simpl in *. simplify_eq.
    eapply (Hcov (major vt) t' u); [done| |done..].
    rewrite Hperm. by apply (proj2 (set_iter_elem _ _)).
  - apply (strictly_sorted key true); [done..|].
    rewrite (keyed_tag_major _ _ HkL) in HndL. by apply NoDup_fmap in HndL; [|apply _].
  - rewrite HpL, length_fmap. lia.
Qed.
End majors_facts.

Section paging_facts.
Context `{PackagingVersion V} `{SetOrder}.
Implicit Types (keep : string -> bool) (hub : nat -> response).

Lemma for_results_Forall (P : string -> Prop) keep results all all' :
  for_results keep results all = Ok all' ->
  (forall t, keep t = true -> P t) -> Forall P all -> Forall P all'.
Proof.
  intros Hfor Hkeep. revert all Hfor.
  induction results as [|item rest IH]; intros all; simpl.
  - by intros [= <-].
  - destruct (item_name item) as [tag_name|] eqn:Hname; simpl; [|done].
    intros Hrest Hall. eapply IH; [done|].
    destruct (keep tag_name) eqn:Hk; [|done].
    apply Forall_app. split; [done|]. constructor; [by apply Hkeep|constructor].
Qed.

Lemma for_results_BadItem keep results all :
  BadItem ∈ results -> exists e, for_results keep results all = Raise e.
Proof.
  revert all. induction results as [|item rest IH]; intros all Hbad.
  - by apply elem_of_nil in Hbad.
  - apply elem_of_cons in Hbad as [<-|Hbad]; simpl; [by eexists|].
    destruct (item_name item); simpl; [by apply IH|by eexists].
Qed.

Lemma page_turn_unusable keep hub page all :
  unusable (hub page) -> exists e, page_turn keep hub page all = Raise e.
Proof.
  unfold unusable, page_turn. destruct (hub page) as [| | | |results next]; try by eexists.
  intros Hbad. destruct results as [|item rest]; [by apply elem_of_nil in Hbad|].
  destruct (for_results_BadItem keep (item :: rest) all Hbad) as [e ->]. by eexists.
Qed.

Lemma page_turn_Continue keep hub page all page' all' :
  page_turn keep hub page all = Ok (Continue (page', all')) ->
  page' = page + 1 /\ exists results, results <> [] /\ hub page = Body results true
    /\ for_results keep results all = Ok all'.
Proof.
  unfold page_turn. destruct (hub page) as [| | | |results next]; try done.
  destruct results as [|item rest]; [done|].
  destruct (for_results keep (item :: rest) all) as [all''|] eqn:Hfor; simpl; [|done].
  destruct next; [|done]. intros [= <- <-]. split; [done|].
  exists (item :: rest). by split_and!.
Qed.

Lemma page_turn_Break keep hub page all st :
  page_turn keep hub page all = Ok (Break st) ->
  st.1 = page /\ ((exists next, hub page = Body [] next) \/ (exists results, hub page = Body results false)).
Proof.
  unfold page_turn. destruct (hub page) as [| | | |results next]; try done.
  destruct results as [|item rest].
  - intros [= <-]. split; [done|]. left. by eexists.
  - destruct (for_results keep (item :: rest) all) as [all''|]; simpl; [|done].
    destruct next; [done|]. intros [= <-]. split; [done|]. right. by eexists.
Qed.

Lemma page_turn_Forall (P : string -> Prop) keep hub page all fl :
  page_turn keep hub page all = Ok fl ->
  (forall t, keep t = true -> P t) -> Forall P all ->
  Forall P (match fl with Continue st | Break st => st.2 end).
Proof.
  unfold page_turn. destruct (hub page) as [| | | |results next]; try done.
  destruct results as [|item rest]; [by intros [= <-]|].
  destruct (for_results keep (item :: rest) all) as [all''|] eqn:Hfor; simpl; [|done].
  intros Hfl Hkeep Hall.
  pose proof (for_results_Forall P _ _ _ _ Hfor Hkeep Hall).
  destruct next; by simplify_eq.
Qed.

(** The loop always comes to an end within [MAX_PAGE] turns. *)
Lemma while_pages_total fuel keep hub page all :
  MAX_PAGE + 1 - page <= fuel -> is_Some (while_pages fuel keep hub page all).
Proof.
  revert page all. induction fuel as [|fuel IH]; intros page all Hfuel; simpl.
  - unfold page_cond. destruct (Nat.leb_spec page MAX_PAGE); [lia|]. by eexists.
  - destruct (page_cond page all) eqn:Hcond; [|by eexists].
    destruct (page_turn keep hub page all) as [[[page' all']|st]|e] eqn:Hturn;
      [|by eexists..].
    apply page_turn_Continue in Hturn as [-> _]. apply IH. lia.
Qed.

Lemma while_pages_Forall (P : string -> Prop) fuel keep hub page all st :
  while_pages fuel keep hub page all = Some (Ok st) ->
  (forall t, keep t = true -> P t) -> Forall P all -> Forall P st.2.
Proof.
  intros Hloop Hkeep. revert page all Hloop.
  induction fuel as [|fuel IH]; intros page all; simpl.
  - destruct (page_cond page all); [done|]. by intros [= <-].
  - destruct (page_cond page all); [|by intros [= <-]].
    destruct (page_turn keep hub page all) as [[[page' all']|st']|e] eqn:Hturn; [| |done].
    + intros Hloop Hall. eapply IH; [done|].
      apply (page_turn_Forall P _ _ _ _ _ Hturn Hkeep Hall).
    + intros [= <-] Hall. apply (page_turn_Forall P _ _ _ _ _ Hturn Hkeep Hall).
Qed.

(** Leaving the loop without an exception: every earlier page had
    results and a successor, and one of the four conditions holds. *)
Lemma while_pages_stops fuel keep hub page all p all' :
  while_pages fuel keep hub page all = Some (Ok (p, all')) ->
  page <= p
  /\ (forall q, page <= q < p -> exists results, results <> [] /\ hub q = Body results true)
  /\ stops_at hub p all'.
Proof.
  revert page all. induction fuel as [|fuel IH]; intros page all; simpl.
  - destruct (page_cond page all) eqn:Hcond; [done|]. intros [= <- <-].
    split_and!; [done|lia|]. unfold page_cond in Hcond.
    apply andb_false_iff in Hcond as [Hc%Nat.leb_gt|Hc%Nat.ltb_ge];
      unfold stops_at; auto.
  - destruct (page_cond page all) eqn:Hcond.
    + destruct (page_turn keep hub page all) as [[[page' all'']|st']|e] eqn:Hturn; [| |done].
      * intros (Hle & Hbefore & Hstop)%IH.
        apply page_turn_Continue in Hturn as (-> & results & Hne & Hhub & _).
        split_and!; [lia| |done].
        intros q Hq. destruct (decide (q = page)) as [->|]; [by eexists|].
        apply Hbefore. lia.
      * intros [= ->]. apply page_turn_Break in Hturn as [Hp Hstop]. simpl in *. subst.
        split_and!; [done|lia|]. unfold stops_at. tauto.
    + intros [= <- <-]. split_and!; [done|lia|]. unfold page_cond in Hcond.
      apply andb_false_iff in Hcond as [Hc%Nat.leb_gt|Hc%Nat.ltb_ge];
        unfold stops_at; auto.
Qed.

Lemma at_test_page keep hub page all : at_test keep hub page all -> 1 <= page.
Proof.
  induction 1 as [|???? _ IH _ Hturn]; [done|].
  apply page_turn_Continue in Hturn as [-> _]. lia.
Qed.

(** From any state the loop reaches, the rest of the run is the run. *)
Lemma while_pages_at_test keep hub page all :
  at_test keep hub page all ->
  while_pages (MAX_PAGE + 1 - page) keep hub page all = while_pages MAX_PAGE keep hub 1 [].
Proof.
  induction 1 as [|page all page' all' Hat IH Hcond Hturn]; [done|].
  rewrite <-IH. pose proof (at_test_page _ _ _ _ Hat).
  pose proof Hturn as [-> _]%page_turn_Continue.
  unfold page_cond in Hcond. apply andb_true_iff in Hcond as [Hp%Nat.leb_le Hl].
  replace (MAX_PAGE + 1 - page) with (S (MAX_PAGE + 1 - (page + 1))) by lia.
  simpl. unfold page_cond. rewrite Hl, (proj2 (Nat.leb_le _ _) Hp). simpl.
  by rewrite Hturn.
Qed.

Lemma while_pages_unusable keep hub page all :
  at_test keep hub page all -> page_cond page all = true -> unusable (hub page) ->
  exists e, while_pages MAX_PAGE keep hub 1 [] = Some (Raise e).
Proof.
  intros Hat Hcond Hbad. rewrite <-(while_pages_at_test _ _ _ _ Hat).
  destruct (page_turn_unusable keep hub page all Hbad) as [e He]. exists e.
  pose proof Hcond as [Hp%Nat.leb_le _]%andb_true_iff.
  replace (MAX_PAGE + 1 - page) with (S (MAX_PAGE - page)) by lia.
  simpl. by rewrite Hcond, He.
Qed.
End paging_facts.

Section fetch_facts.
Context `{PackagingVersion V} `{SetOrder}.

Lemma keep_fpm_true t :
  keep_fpm t = true ->
  Py.any_in fpm_deny_list t = false /\ Py.contains "fpm" t = true /\ is_Some (parse_core t).
Proof.
  unfold keep_fpm, parse_core, fpm_deny_list.
  destruct (Py.any_in _ t); [done|].
  destruct (Py.contains "fpm" t); [|done]. simpl.
  destruct (Version _) as [v|]; [|done]. by eauto.
Qed.

Lemma keep_semver_true filter_substrings t :
  keep_semver filter_substrings t = true ->
  Py.any_in filter_substrings t = false /\ is_Some (Version t).
Proof.
  unfold keep_semver. destruct (Py.any_in _ t); [done|].
  destruct (Version t) as [v|]; [|done]. by eauto.
Qed.

(** What the paging loop and the selection give together. *)
Lemma paging_then_select keep key max_count hub :
  (forall t, keep t = true -> is_Some (key t)) ->
  match while_pages MAX_PAGE keep hub 1 [] with
  | Some (Ok (_, all_versions)) =>
      Forall (fun t => keep t = true) all_versions
      /\ exists L, select_majors key max_count all_versions = Ok L
           /\ catalogue key max_count all_versions L
  | Some (Raise _) => True
  | None => False
  end.
Proof.
  intros Hkey.
  destruct (while_pages_total MAX_PAGE keep hub 1 []) as [r Hr]; [lia|].
  rewrite Hr. destruct r as [[p all_versions]|e]; [|done].
  pose proof (while_pages_Forall (fun t => keep t = true) _ _ _ _ _ _ Hr) as Hall.
  simpl in Hall. specialize (Hall (fun _ Hk => Hk) (Forall_nil_2 _)).
  split; [done|]. apply select_majors_catalogue.
  eapply Forall_impl; [done|]. by intros t ?%Hkey.
Qed.

Lemma fetch_fpm_outcome hub :
  match paging_fpm hub with
  | Some (Ok (_, all_fpm_versions)) =>
      exists L, fetch_nextcloud_fpm_versions hub = Some L
        /\ catalogue parse_core 10 all_fpm_versions L
        /\ Forall (fun t => keep_fpm t = true) L
  | Some (Raise _) => fetch_nextcloud_fpm_versions hub = Some []
  | None => False
  end.
Proof.
  unfold fetch_nextcloud_fpm_versions, paging_fpm.
  pose proof (paging_then_select keep_fpm parse_core 10 (hub NEXTCLOUD_REPO)) as Hsel.
  destruct (while_pages _ _ _ _ _) as [[[p all]|e]|]; [|done|].
  - destruct Hsel as (Hall & L & HL & Hcat); [by intros t (_ & _ & ?)%keep_fpm_true|].
    exists L. simpl. rewrite HL. split_and!; [done..|].
    destruct Hcat as (Hsub & _). apply Forall_forall. intros t Ht%Hsub.
    rewrite Forall_forall in Hall. by apply Hall.
  - apply Hsel. by intros t (_ & _ & ?)%keep_fpm_true.
Qed.

Lemma fetch_semver_outcome hub docker_repo max_count filter_substrings :
  match paging_semver hub docker_repo filter_substrings with
  | Some (Ok (_, all_versions)) =>
      exists L, fetch_semver_versions hub docker_repo max_count filter_substrings = Some L
        /\ catalogue Version max_count all_versions L
        /\ Forall (fun t => keep_semver filter_substrings t = true) L
  | Some (Raise _) =>
      fetch_semver_versions hub docker_repo max_count filter_substrings = Some []
  | None => False
  end.
Proof.
  unfold fetch_semver_versions, paging_semver.
  pose proof (paging_then_select (keep_semver filter_substrings) Version max_count
                (hub docker_repo)) as Hsel.
  destruct (while_pages _ _ _ _ _) as [[[p all]|e]|]; [|done|].
  - destruct Hsel as (Hall & L & HL & Hcat); [by intros t (_ & ?)%keep_semver_true|].
    exists L. simpl. rewrite HL. split_and!; [done..|].
    destruct Hcat as (Hsub & _). apply Forall_forall. intros t Ht%Hsub.
    rewrite Forall_forall in Hall. by apply Hall.
  - apply Hsel. by intros t (_ & ?)%keep_semver_true.
Qed.

(** The catalogue [run_update_process] plans with. *)
Lemma fetch_fpm_catalogue hub available_versions :
  fetch_nextcloud_fpm_versions hub = Some available_versions ->
  Forall (fun t => is_Some (parse_core t)) available_versions
  /\ NoDup (tag_major parse_core <$> available_versions).
Proof.
  pose proof (fetch_fpm_outcome hub) as Hout.
  destruct (paging_fpm hub) as [[[p all]|e]|]; [| |done].
  - destruct Hout as (L & -> & (_ & Hkey & Hnd & _) & _). by intros [= <-].
  - rewrite Hout. intros [= <-]. split; constructor.
Qed.

(** C2.  Whatever the registry answers, both fetch functions return.
    When the paging loop ended without an exception, the list returned
    is a [catalogue] of the collected tags: at most one tag per major
    version, each parsing to the highest version among the collected
    tags of its major, in descending order of parsed version, and at
    most ten of them for [fetch_nextcloud_fpm_versions], at most
    [max_count] (ten by default) for [fetch_semver_versions].
    Otherwise the list is empty. *)
Theorem fetch_one_tag_per_major hub :
  match paging_fpm hub with
  | Some (Ok (_, all_fpm_versions)) =>
      exists L, fetch_nextcloud_fpm_versions hub = Some L
        /\ catalogue parse_core 10 all_fpm_versions L
        /\ length L <= 10
  | Some (Raise _) => fetch_nextcloud_fpm_versions hub = Some []
  | None => False
  end
  /\ forall docker_repo max_count filter_substrings,
      match paging_semver hub docker_repo filter_substrings with
      | Some (Ok (_, all_versions)) =>
          exists L,
            fetch_semver_versions hub docker_repo max_count filter_substrings = Some L
            /\ catalogue Version max_count all_versions L
      | Some (Raise _) =>
          fetch_semver_versions hub docker_repo max_count filter_substrings = Some []
      | None => False
      end.
Proof.
  split.
  - pose proof (fetch_fpm_outcome hub) as Hout.
    destruct (paging_fpm hub) as [[[p all]|e]|]; [|done..].
    destruct Hout as (L & HL & Hcat & _). exists L. split_and!; [done..|].
    destruct Hcat as (_ & _ & _ & _ & _ & Hlen). lia.
  - intros docker_repo max_count filter_substrings.
    pose proof (fetch_semver_outcome hub docker_repo max_count filter_substrings) as Hout.
    destruct (paging_semver _ _ _) as [[[p all]|e]|]; [|done..].
    destruct Hout as (L & HL & Hcat & _). by exists L.
Qed.

(** C7.  The two fetch functions return a list for every registry:
    they never raise.  Every tag returned passed the deny list (and
    holds "fpm" for Nextcloud) and parses as a version (after "-fpm" is
    removed for Nextcloud).  When a page the loop asks for is unusable
    (transport failure, error status, a body that is not the expected
    JSON), the list returned is empty. *)
Theorem fetch_never_raises hub :
  (exists L, fetch_nextcloud_fpm_versions hub = Some L
     /\ Forall (fun t => Py.any_in fpm_deny_list t = false
                         /\ Py.contains "fpm" t = true
                         /\ is_Some (parse_core t)) L
     /\ (forall page all_versions,
           at_test keep_fpm (hub NEXTCLOUD_REPO) page all_versions ->
           page_cond page all_versions = true ->
           unusable (hub NEXTCLOUD_REPO page) -> L = []))
  /\ forall docker_repo max_count filter_substrings,
      exists L, fetch_semver_versions hub docker_repo max_count filter_substrings = Some L
        /\ Forall (fun t => Py.any_in filter_substrings t = false
                            /\ is_Some (Version t)) L
        /\ (forall page all_versions,
              at_test (keep_semver filter_substrings) (hub docker_repo) page all_versions ->
              page_cond page all_versions = true ->
              unusable (hub docker_repo page) -> L = []).
Proof.
  split.
  - pose proof (fetch_fpm_outcome hub) as Hout.
    destruct (paging_fpm hub) as [[[p all]|e]|] eqn:Hpaging; [| |done].
    + destruct Hout as (L & HL & _ & Hkeep). exists L. split_and!; [done| |].
      * eapply Forall_impl; [done|]. apply keep_fpm_true.
      * intros page all_versions Hat Hcond Hbad.
        destruct (while_pages_unusable _ _ _ _ Hat Hcond Hbad) as [e He].
        unfold paging_fpm in Hpaging. congruence.
    + exists []. split_and!; [done|constructor|done].
  - intros docker_repo max_count filter_substrings.
    pose proof (fetch_semver_outcome hub docker_repo max_count filter_substrings) as Hout.
    destruct (paging_semver _ _ _) as [[[p all]|e]|] eqn:Hpaging; [| |done].
    + destruct Hout as (L & HL & _ & Hkeep). exists L. split_and!; [done| |].
      * eapply Forall_impl; [done|]. apply keep_semver_true.
      * intros page all_versions Hat Hcond Hbad.
        destruct (while_pages_unusable _ _ _ _ Hat Hcond Hbad) as [e He].
        unfold paging_semver in Hpaging. congruence.
    + exists []. split_and!; [done|constructor|done].
Qed.

(** C8, amended.  The paging loop is left without an exception only
    when the current page is empty, when the registry announces no next
    page, when the page number exceeds [MAX_PAGE] (100), or when a
    hundred tags have been collected; every page before the last one
    had results and a next page. *)
Theorem paging_stops_only_when hub :
  (forall page all_versions,
     paging_fpm hub = Some (Ok (page, all_versions)) ->
     stops_at (hub NEXTCLOUD_REPO) page all_versions
     /\ forall q, 1 <= q < page ->
          exists results, results <> [] /\ hub NEXTCLOUD_REPO q = Body results true)
  /\ (forall docker_repo filter_substrings page all_versions,
        paging_semver hub docker_repo filter_substrings = Some (Ok (page, all_versions)) ->
        stops_at (hub docker_repo) page all_versions
        /\ forall q, 1 <= q < page ->
             exists results, results <> [] /\ hub docker_repo q = Body results true).
Proof.
  split.
  - intros page all_versions (_ & Hbefore & Hstop)%while_pages_stops. by split.
  - intros docker_repo filter_substrings page all_versions
      (_ & Hbefore & Hstop)%while_pages_stops. by split.
Qed.
End fetch_facts.

(** ** The compose file *)

Section compose_facts.
Implicit Types (d : yaml) (file : compose_file) (services : gmap string yaml).

Lemma update_absent new_version service d services :
  compose_services d = Some services -> services !! service = None ->
  update_docker_compose_images new_version service (Some d) = (Some d, true).
Proof.
  unfold update_docker_compose_images, updated_compose_data, compose_services, get_services.
  destruct d as [| | | | |top]; try done.
  destruct (top !! "services") as [[| | | | |m]|] eqn:Htop; try done; simpl.
  intros [= <-] Hs. unfold service_in. by rewrite Hs.
Qed.

Lemma update_present new_version service top services entry :
  top !! "services" = Some (YMap services) ->
  services !! service = Some (YMap entry) ->
  update_docker_compose_images new_version service (Some (YMap top))
  = (Some (YMap (<["services" := YMap (<[service :=
        YMap (<["image" := YStr ("nextcloud:" +:+ new_version)]> entry)]> services)]> top)),
     true).
Proof.
  intros Htop Hs.
  unfold update_docker_compose_images, updated_compose_data, get_services, assign_image.
  rewrite Htop. simpl. rewrite Hs. simpl. by rewrite ?Htop, ?Hs.
Qed.

Lemma update_error new_version service file e :
  updated_compose_data new_version service file = Raise e ->
  update_docker_compose_images new_version service file = (file, false).
Proof. unfold update_docker_compose_images. by intros ->. Qed.

Lemma update_unparseable new_version service :
  update_docker_compose_images new_version service None = (None, false).
Proof. done. Qed.

(** The outcomes of one call. *)
Lemma update_cases new_version service file :
  update_docker_compose_images new_version service file = (file, false)
  \/ update_docker_compose_images new_version service file = (file, true)
  \/ exists top services entry,
       file = Some (YMap top) /\ top !! "services" = Some (YMap services)
       /\ services !! service = Some (YMap entry)
       /\ update_docker_compose_images new_version service file
          = (Some (YMap (<["services" := YMap (<[service :=
               YMap (<["image" := YStr ("nextcloud:" +:+ new_version)]> entry)]> services)]> top)),
             true).
Proof.
  destruct file as [d|]; [|by left].
  destruct (updated_compose_data new_version service (Some d)) as [d'|e] eqn:Hupd;
    [|left; by eapply update_error].
  right. unfold update_docker_compose_images. rewrite Hupd.
  unfold updated_compose_data in Hupd.
  destruct (get_services d) as [svcs|] eqn:Hget; simpl in Hupd; [|done].
  destruct (service_in service svcs) as [[]|] eqn:Hin; simpl in Hupd; [| |done].
  - right. unfold assign_image in Hupd.
    destruct d as [| | | | |top]; try done.
    destruct (top !! "services") as [[| | | | |services]|] eqn:Htop; try done.
    destruct (services !! service) as [[| | | | |entry]|] eqn:Hs; try done.
    simplify_eq. by exists top, services, entry.
  - left. by simplify_eq.
Qed.

Lemma service_entry_insert top services service e s :
  service_entry s (YMap (<["services" := YMap (<[service := e]> services)]> top))
  = if decide (service = s) then Some e else services !! s.
Proof.
  unfold service_entry, compose_services. rewrite lookup_insert_eq. simpl.
  by rewrite lookup_insert.
Qed.

Lemma service_entry_services top services s :
  top !! "services" = Some (YMap services) ->
  service_entry s (YMap top) = services !! s.
Proof. unfold service_entry, compose_services. by intros ->. Qed.

(** A call for one service leaves the entries of the others alone. *)
Lemma update_other_entry new_version service file s :
  s <> service ->
  service_entry s <$> (update_docker_compose_images new_version service file).1
  = service_entry s <$> file.
Proof.
  intros Hne.
  destruct (update_cases new_version service file)
    as [->|[->|(top & services & entry & -> & Htop & Hs & ->)]]; [done..|].
  simpl. f_equal. rewrite service_entry_insert, decide_False by done.
  by rewrite (service_entry_services _ _ _ Htop).
Qed.

Lemma has_service_update new_version service file s :
  has_service s file ->
  has_service s (update_docker_compose_images new_version service file).1.
Proof.
  intros (d & entry & -> & Hentry).
  destruct (update_cases new_version service (Some d))
    as [->|[->|(top & services & entry' & [= ->] & Htop & Hs & ->)]];
    [by exists d, entry..|].
  simpl. destruct (decide (service = s)) as [->|Hne].
  - eexists _, _. split; [done|]. by rewrite service_entry_insert, decide_True.
  - eexists _, entry. split; [done|]. rewrite service_entry_insert, decide_False by done.
    by rewrite <-(service_entry_services _ _ _ Htop).
Qed.

Lemma service_image_field service file :
  service_image service file = file ≫= service_field service "image".
Proof.
  destruct file as [d|]; [|done]. simpl.
  unfold service_field, service_entry, compose_services.
  destruct d as [| | | | |top]; try done.
  by destruct (top !! "services") as [[| | | | |services]|].
Qed.

Lemma service_image_update new_version service file :
  has_service service file ->
  service_image service (update_docker_compose_images new_version service file).1
  = Some (YStr ("nextcloud:" +:+ new_version)).
Proof.
  intros (d & entry & -> & Hentry).
  unfold service_entry, compose_services in Hentry.
  destruct d as [| | | | |top]; try done.
  destruct (top !! "services") as [[| | | | |services]|] eqn:Htop; try done.
  simpl in Hentry.
  rewrite (update_present _ _ _ _ _ Htop Hentry). simpl.
  by rewrite !lookup_insert_eq.
Qed.

Lemma service_image_other new_version service file s :
  s <> service ->
  service_image s (update_docker_compose_images new_version service file).1
  = service_image s file.
Proof.
  intros Hne. rewrite !service_image_field.
  pose proof (update_other_entry new_version service file s Hne) as Hother.
  destruct (update_docker_compose_images new_version service file).1 as [d'|],
    file as [d|]; simplify_eq/=; [|done].
  unfold service_field. by rewrite Hother.
Qed.
End compose_facts.

(** C9.  For a well-formed document and a service that its services
    mapping does not have, [update_docker_compose_images] writes the
    document back as it was and prints its success message (the absent
    service is not an error); the function returns no value, and the
    document has no image reference for that service. *)
Theorem absent_service_is_skipped (new_version service : string) (d : yaml)
    (services : gmap string yaml) :
  well_formed d ->
  compose_services d = Some services ->
  services !! service = None ->
  update_docker_compose_images new_version service (Some d) = (Some d, true)
  /\ service_image service (Some d) = None.
Proof.
  intros _ Hd Hs. split; [by eapply update_absent|].
  rewrite service_image_field. simpl. unfold service_field, service_entry.
  rewrite Hd. simpl. by rewrite Hs.
Qed.


(** ** Planning *)

Section planning_facts.
Context `{PackagingVersion V} `{SetOrder}.

Lemma newer_versions_Ok installed available update_path out :
  newer_versions installed available update_path = Ok out ->
  exists new, out = update_path ++ new /\ sublist new available
    /\ forall v, v ∈ new <-> v ∈ available /\ key_lt parse_core installed v.
Proof.
  revert update_path. induction available as [|version rest IH]; intros update_path; simpl.
  - intros [= <-]. exists []. rewrite app_nil_r. split_and!; [done..|].
    intros v. split; [by intros ?%elem_of_nil|by intros [?%elem_of_nil _]].
  - destruct (parse_core version) as [a|] eqn:Ha; [|done].
    destruct (parse_core installed) as [b|] eqn:Hb; [|done].
    intros (new & -> & Hsub & Hin)%IH. unfold version_gt.
    destruct (version_lt b a) eqn:Hlt.
    + exists (version :: new). rewrite <-app_assoc. split_and!; [done|by constructor|].
      intros v. rewrite !elem_of_cons, Hin. split.
      * intros [->|[? ?]]; [|by auto]. split; [by left|]. by exists b, a.
      * intros [[->|?] ?]; by auto.
    + exists new. split_and!; [done|by constructor|].
      intros v. rewrite elem_of_cons, Hin. split; [by intros [? ?]; auto|].
      intros [[->|?] Hv]; [|done]. destruct Hv as (kb & ka & ? & ? & ?). congruence.
Qed.

Lemma newer_versions_unparsed installed available :
  parse_core installed = None ->
  newer_versions installed available []
  = match available with
    | [] => Ok []
    | _ :: _ => Raise InvalidVersion
    end.
Proof.
  intros Hnone. destruct available as [|version rest]; simpl; [done|].
  rewrite Hnone. by destruct (parse_core version).
Qed.

Lemma up_to_Ok target update_path kept :
  up_to target update_path = Ok kept ->
  sublist kept update_path
  /\ forall v, v ∈ kept <-> v ∈ update_path /\ key_le parse_core v target.
Proof.
  revert kept. induction update_path as [|v0 rest IH]; intros kept; simpl.
  - intros [= <-]. split; [done|].
    intros v. split; [by intros ?%elem_of_nil|by intros [?%elem_of_nil _]].
  - destruct (parse_core v0) as [a|] eqn:Ha; [|done].
    destruct (parse_core target) as [b|] eqn:Hb; [|done].
    destruct (up_to target rest) as [kept'|] eqn:Hrest; simpl; [|done].
    destruct (IH kept' eq_refl) as [Hsub Hin].
    destruct (version_le a b) eqn:Hle; intros [= <-].
    + split; [by constructor|].
      intros v. rewrite !elem_of_cons, Hin. split.
      * intros [->|[? ?]]; [|by auto]. split; [by left|]. by exists a, b.
      * intros [[->|?] ?]; by auto.
    + split; [by constructor|].
      intros v. rewrite elem_of_cons, Hin. split; [by intros [? ?]; auto|].
      intros [[->|?] Hv]; [|done]. destruct Hv as (ka & kb & ? & ? & ?). congruence.
Qed.

Lemma sorted_ascending (l s : list string) :
  NoDup (tag_major parse_core <$> l) ->
  sorted parse_core false l = Ok s -> ascending parse_core s /\ s ≡ₚ l.
Proof.
  intros Hnd (d & -> & Hk & Hs & Hperm)%sorted_Ok. split; [|done].
  apply (strictly_sorted parse_core false); [done..|].
  rewrite <-Hperm, (keyed_tag_major _ _ Hk) in Hnd.
  by apply NoDup_fmap in Hnd; [|apply _].
Qed.

(** What a plan consists of. *)
Lemma plan_update_Plan installed available answer choices update_path :
  NoDup (tag_major parse_core <$> available) ->
  plan_update installed available answer = Plan choices update_path ->
  choices <> []
  /\ (forall v, v ∈ choices <-> v ∈ available /\ key_lt parse_core installed v)
  /\ ascending parse_core update_path
  /\ (forall v, v ∈ update_path <->
        v ∈ choices /\ match answer with
                       | Latest => True
                       | Specific target => key_le parse_core v target
                       end).
Proof.
  intros Hnd. unfold plan_update.
  destruct (newer_versions installed available []) as [choices'|] eqn:Hnewer; [|done].
  apply newer_versions_Ok in Hnewer as (new & Hnew & Hsub & Hin).
  simpl in Hnew. subst new.
  destruct choices' as [|c choices'']; [done|].
  set (chosen := match answer with Specific t => _ | Latest => _ end).
  destruct chosen as [kept|] eqn:Hchosen; simpl; [|done].
  destruct (sorted parse_core false kept) as [s|] eqn:Hsorted; [|done].
  intros [= <- <-].
  assert (sublist kept (c :: choices'')
          /\ forall v, v ∈ kept <->
               v ∈ c :: choices'' /\ match answer with
                                      | Latest => True
                                      | Specific target => key_le parse_core v target
                                      end) as [Hsubk Hink].
  { subst chosen. destruct answer as [|target].
    - injection Hchosen as <-. split; [done|]. intros v. tauto.
    - by apply up_to_Ok. }
  assert (NoDup (tag_major parse_core <$> kept)) as Hndk.
  { eapply sublist_NoDup; [done|]. apply fmap_sublist. by etrans. }
  destruct (sorted_ascending _ _ Hndk Hsorted) as [Hasc Hperm].
  split_and!; [done..|]. intros v. by rewrite Hperm.
Qed.

(** C1.  The update path that [run_update_process] computes from the
    catalogue of [fetch_nextcloud_fpm_versions] is strictly ascending by
    parsed version; each of its versions is greater than the installed
    one and, when a target was chosen, not greater than the target; it
    holds exactly the catalogue versions in that range, and so the
    target itself when the target was one of the choices offered. *)
Theorem upgrade_plan_ascending_bounded (hub : registry) (installed : string)
    (answer : update_mode) (available choices update_path : list string) :
  fetch_nextcloud_fpm_versions hub = Some available ->
  plan_update installed available answer = Plan choices update_path ->
  ascending parse_core update_path
  /\ Forall (fun v => key_lt parse_core installed v) update_path
  /\ (forall v, v ∈ update_path <->
        v ∈ available /\ key_lt parse_core installed v
        /\ match answer with
           | Latest => True
           | Specific target => key_le parse_core v target
           end)
  /\ match answer with
     | Latest => True
     | Specific target =>
         Forall (fun v => key_le parse_core v target) update_path
         /\ (target ∈ choices -> target ∈ update_path)
     end.
Proof.
  intros [_ Hnd]%fetch_fpm_catalogue (_ & Hchoices & Hasc & Hpath)%plan_update_Plan; [|done].
  split_and!; [done| | |].
  - apply Forall_forall. intros v [Hv _]%Hpath. by apply Hchoices in Hv as [_ ?].
  - intros v. rewrite Hpath, Hchoices. tauto.
  - destruct answer as [|target]; [done|]. split.
    + apply Forall_forall. by intros v [_ ?]%Hpath.
    + intros Ht. apply Hpath. split; [done|].
      apply Hchoices in Ht as [_ (kb & kt & _ & Hkt & _)].
      exists kt, kt. split_and!; [done..|].
      unfold version_le. by rewrite version_lt_irrefl.
Qed.

End planning_facts.

(** ** The step loop *)

Section run_facts.
Context `{PackagingVersion V} `{SetOrder}.

Lemma update_image_compose v s m :
  compose (update_image v s m) = (update_docker_compose_images v s (compose m)).1.
Proof. unfold update_image. by destruct (update_docker_compose_images _ _ _). Qed.

Lemma update_image_log v s m :
  exists e, log (update_image v s m) = log m ++ [e]
    /\ (e = ImageUpdated s v \/ e = ImageUpdateError s).
Proof.
  unfold update_image. destruct (update_docker_compose_images _ _ _) as [file []];
    eexists; (split; [done|]); auto.
Qed.

Lemma wait_for_nextcloud_status_events fuel status attempt polls i v :
  wait_for_nextcloud_status fuel status attempt = Some polls ->
  Forall (step_event i v) polls.
Proof.
  revert attempt polls. induction fuel as [|fuel IH]; intros attempt polls; simpl; [done|].
  destruct (status_ready (status attempt)).
  - intros [= <-]. by repeat constructor.
  - destruct (wait_for_nextcloud_status fuel status (S attempt)) as [rest|] eqn:Hrest;
      simpl; [|done].
    intros [= <-]. repeat constructor. by eapply IH.
Qed.

Lemma wait_for_nextcloud_status_polls fuel status attempt polls :
  wait_for_nextcloud_status fuel status attempt = Some polls ->
  (exists polls', polls = StatusRequest :: polls')
  /\ Forall (fun e => e = StatusRequest \/ e = Sleep 30) polls.
Proof.
  revert attempt polls. induction fuel as [|fuel IH]; intros attempt polls; simpl; [done|].
  destruct (status_ready (status attempt)).
  - intros [= <-]. split; [by eexists|]. repeat constructor; auto.
  - destruct (wait_for_nextcloud_status fuel status (S attempt)) as [rest|] eqn:Hrest;
      simpl; [|done].
    intros [= <-]. split; [by eexists|].
    repeat (constructor; [by auto|]). by eapply IH.
Qed.

Lemma run_occ_commands_events exec i v :
  Forall (step_event i v) (run_occ_commands exec).1.
Proof.
  unfold run_occ_commands.
  destruct (check_call (exec DbAddMissingIndices)),
    (check_call (exec MaintenanceRepair)), (check_call (exec OccUpgrade));
    by repeat constructor.
Qed.

(** What one turn adds to the log, and what it does to the file. *)
Lemma upgrade_step_effect env fuel i n v m r m' :
  upgrade_step env fuel i n v m = Some (r, m') ->
  (exists events, log m' = log m ++ events /\ Forall (step_event i v) events)
  /\ (compose m' = compose m \/ compose m' = after_updates v (compose m)).
Proof.
  unfold upgrade_step.
  destruct (check_call (compose_down env i));
    [|intros [= <- <-]; (split; [eexists; split; [done|by repeat constructor]|by left])..].
  destruct (update_image_log v "nextcloud-fpm"
              (emit [Sleep 30] (emit [StepRule i n v; ComposeDown] m))) as (e1 & He1 & Hk1).
  destruct (update_image_log v "nextcloud-cron"
              (update_image v "nextcloud-fpm"
                 (emit [Sleep 30] (emit [StepRule i n v; ComposeDown] m)))) as (e2 & He2 & Hk2).
  set (m2 := update_image v "nextcloud-cron" _) in *.
  assert (compose m2 = after_updates v (compose m)) as Hfile
    by (subst m2; by rewrite !update_image_compose).
  assert (log m2 = log m ++ [StepRule i n v; ComposeDown; Sleep 30; e1; e2]) as Hlog.
  { rewrite He2, He1. simpl. by rewrite <-!app_assoc. }
  assert (step_event i v e1 /\ step_event i v e2) as [Hs1 Hs2]
    by (by destruct Hk1 as [-> | ->], Hk2 as [-> | ->]).
  clearbody m2.
  destruct (check_call (compose_up env i));
    [|intros [= <- <-]; simpl; rewrite Hlog, <-app_assoc;
      (split; [eexists; split; [done|by repeat constructor]|by right])..].
  destruct (wait_for_nextcloud_status fuel (status_php env i) 0) as [polls|] eqn:Hwait;
    simpl; [|done].
  pose proof (wait_for_nextcloud_status_events _ _ _ _ i v Hwait) as Hpolls.
  destruct (fpm_container env i) as [container_id|].
  - pose proof (run_occ_commands_events (occ env i) i v) as Hocc.
    destruct (run_occ_commands (occ env i)) as [events [[]|e]]; intros [= <- <-]; simpl;
      rewrite Hlog, <-!app_assoc; (split; [|by right]); eexists; (split; [done|]);
      simpl in *; repeat (apply Forall_cons; split; [done|]);
      repeat (apply Forall_app; split; [done|]); by repeat constructor.
  - intros [= <- <-]. simpl. rewrite Hlog, <-!app_assoc. split; [|by right].
    eexists. split; [done|]. simpl. repeat (apply Forall_cons; split; [done|]).
    apply Forall_app. split; [done|]. by repeat constructor.
Qed.

(** A turn that ends with a failed start. *)
Lemma upgrade_step_StartFailed env fuel i n v m k m' :
  upgrade_step env fuel i n v m = Some (Some (StartFailed k), m') ->
  k = i
  /\ check_call (compose_down env i) = Done
  /\ check_call (compose_up env i) = CalledProcessError
  /\ last (log m') = Some ComposeUp
  /\ compose m' = after_updates v (compose m).
Proof.
  unfold upgrade_step.
  destruct (check_call (compose_down env i)); [|done..].
  set (m2 := update_image v "nextcloud-cron" _).
  assert (compose m2 = after_updates v (compose m)) as Hfile
    by (subst m2; by rewrite !update_image_compose).
  clearbody m2.
  destruct (check_call (compose_up env i));
    [|intros [= <- <-]; simpl; by rewrite last_snoc|done].
  destruct (wait_for_nextcloud_status fuel (status_php env i) 0); simpl; [|done].
  destruct (fpm_container env i); [|done].
  by destruct (run_occ_commands (occ env i)) as [? [[]|]].
Qed.

Lemma has_service_after_updates v s file :
  has_service s file -> has_service s (after_updates v file).
Proof. intros Hs. unfold after_updates. by do 2 apply has_service_update. Qed.

Lemma service_image_after_updates v file :
  (has_service "nextcloud-fpm" file ->
   service_image "nextcloud-fpm" (after_updates v file) = Some (YStr ("nextcloud:" +:+ v)))
  /\ (has_service "nextcloud-cron" file ->
      service_image "nextcloud-cron" (after_updates v file) = Some (YStr ("nextcloud:" +:+ v))).
Proof.
  unfold after_updates. split; intros Hs.
  - rewrite service_image_other by done. by apply service_image_update.
  - apply service_image_update. by apply has_service_update.
Qed.

Lemma upgrade_step_has_service env fuel i n v m r m' s :
  upgrade_step env fuel i n v m = Some (r, m') ->
  has_service s (compose m) -> has_service s (compose m').
Proof.
  intros [_ [-> | ->]]%upgrade_step_effect; [done|apply has_service_after_updates].
Qed.

(** The loop that ends with a failed start: the failing step is one of
    the plan, the log ends with its start, nothing of a later step is in
    the log, and the file carries the tag of the failing step. *)
Lemma for_steps_StartFailed env fuel i n update_path m k m' :
  for_steps env fuel i n update_path m = Some (StartFailed k, m') ->
  exists v events,
    i <= k /\ update_path !! (k - i) = Some v
    /\ check_call (compose_up env k) = CalledProcessError
    /\ last (log m') = Some ComposeUp
    /\ log m' = log m ++ events
    /\ (forall j t w, StepRule j t w ∈ events -> i <= j <= k)
    /\ (forall s w, ImageUpdated s w ∈ events ->
          exists j, j <= k - i /\ update_path !! j = Some w)
    /\ (forall s, has_service s (compose m) -> has_service s (compose m'))
    /\ (has_service "nextcloud-fpm" (compose m) ->
        service_image "nextcloud-fpm" (compose m') = Some (YStr ("nextcloud:" +:+ v)))
    /\ (has_service "nextcloud-cron" (compose m) ->
        service_image "nextcloud-cron" (compose m') = Some (YStr ("nextcloud:" +:+ v))).
Proof.
  revert i m. induction update_path as [|v0 rest IH]; intros i m; simpl; [done|].
  destruct (upgrade_step env fuel i n v0 m) as [[[x|] m1]|] eqn:Hstep; [| |done].
  - intros [= -> ->].
    pose proof (upgrade_step_effect _ _ _ _ _ _ _ _ Hstep) as [(events & Hlog & Hev) _].
    apply upgrade_step_StartFailed in Hstep as (-> & _ & Hup & Hlast & Hfile).
    rewrite Forall_forall in Hev.
    exists v0, events. rewrite Nat.sub_diag. split_and!; [done..| | | | |].
    + intros j t w [-> _]%Hev. lia.
    + intros s w ->%Hev. exists 0. by split.
    + intros s. rewrite Hfile. apply has_service_after_updates.
    + rewrite Hfile. apply service_image_after_updates.
    + rewrite Hfile. apply service_image_after_updates.
  - intros (v & events & Hk & Hv & Hup & Hlast & Hlog & Hrule & Himg & Hhas & Hfpm & Hcron)%IH.
    pose proof (upgrade_step_effect _ _ _ _ _ _ _ _ Hstep) as [(events1 & Hlog1 & Hev1) _].
    pose proof (upgrade_step_has_service _ _ _ _ _ _ _ _ "nextcloud-fpm" Hstep).
    pose proof (upgrade_step_has_service _ _ _ _ _ _ _ _ "nextcloud-cron" Hstep).
    rewrite Forall_forall in Hev1.
    exists v, (events1 ++ events).
    replace (k - i) with (S (k - S i)) by lia.
    split_and!; [lia|done..|by rewrite Hlog, Hlog1, app_assoc| | | |by auto|by auto].
    + intros j t w [[-> _]%Hev1|?%Hrule]%elem_of_app; lia.
    + intros s w [->%Hev1|(j & Hj & Hw)%Himg]%elem_of_app.
      * exists 0. split; [lia|done].
      * exists (S j). split; [lia|done].
    + intros s Hs. apply Hhas. by eapply upgrade_step_has_service.
Qed.

End run_facts.

(** ** The run *)

Section run_claims.
Context `{PackagingVersion V} `{SetOrder}.

Lemma run_occ_commands_maintenance exec :
  (forall c, exec c <> NotSpawned) ->
  run_occ_commands exec
  = (maintenance exec [DbAddMissingIndices; MaintenanceRepair; OccUpgrade], Ok ()).
Proof.
  intros Hspawned. unfold run_occ_commands, maintenance.
  pose proof (Hspawned DbAddMissingIndices). pose proof (Hspawned MaintenanceRepair).
  pose proof (Hspawned OccUpgrade).
  destruct (exec DbAddMissingIndices) as [[| |]|], (exec MaintenanceRepair) as [[| |]|],
    (exec OccUpgrade) as [[| |]|]; done.
Qed.

(** C3, amended.  When the detected version of the installation does
    not parse, [run_update_process] returns before anything is done to
    the deployment (empty log, compose file as it was): with the error
    "Error comparing versions" when the catalogue has an entry, with the
    message "No newer version available for update." when the catalogue
    is empty.  No catalogue version is compared with the unparsed
    value. *)
Theorem unparsed_installed_version_stops_run (env : environment) (fuel : nat)
    (file : compose_file) :
  parse_core (installed_version env) = None ->
  exists available,
    fetch_nextcloud_fpm_versions (hub env) = Some available
    /\ run_update_process env fuel file
       = Some (match available with
               | [] => NoNewerVersion
               | _ :: _ => ComparisonError
               end, {| compose := file; log := [] |}).
Proof.
  intros Hnone. unfold run_update_process.
  pose proof (fetch_fpm_outcome (hub env)) as Hfetch.
  destruct (fetch_nextcloud_fpm_versions (hub env)) as [available|] eqn:Havail.
  - exists available. split; [done|]. simpl. unfold plan_update.
    rewrite (newer_versions_unparsed _ _ Hnone). by destruct available.
  - destruct (paging_fpm (hub env)) as [[[p all]|e]|]; [|done..].
    by destruct Hfetch as (L & ? & _).
Qed.

(** C4, amended.  On a compose file that cannot be parsed,
    [update_docker_compose_images] prints its error message, leaves the
    file as it is and returns; the step goes on: once the containers
    were stopped, both calls fail in this way and the containers are
    started, and when the start succeeds the run waits for the status
    and, with the container found, runs the maintenance commands. *)
Theorem unparseable_compose_file_is_not_fatal (env : environment) (fuel : nat)
    (i n : nat) (v : string) (m : machine) (r : option exit) (m' : machine) :
  compose m = None ->
  check_call (compose_down env i) = Done ->
  upgrade_step env fuel i n v m = Some (r, m') ->
  (forall service, update_docker_compose_images v service None = (None, false))
  /\ compose m' = None
  /\ exists rest,
       log m' = log m ++ [StepRule i n v; ComposeDown; Sleep 30;
                          ImageUpdateError "nextcloud-fpm";
                          ImageUpdateError "nextcloud-cron"; ComposeUp] ++ rest
       /\ (check_call (compose_up env i) = Done ->
           exists rest', rest = Sleep 60 :: StatusRequest :: rest'
             /\ (is_Some (fpm_container env i) -> Occ DbAddMissingIndices ∈ rest')).
Proof.
  intros Hfile Hdown Hstep. split; [done|]. revert Hstep.
  unfold upgrade_step. rewrite Hdown.
  unfold update_image. simpl. rewrite Hfile. simpl.
  destruct (check_call (compose_up env i)) eqn:Hup;
    [|intros [= <- <-]; simpl; (split; [done|]); exists [];
      rewrite <-!app_assoc; by split..].
  destruct (wait_for_nextcloud_status fuel (status_php env i) 0) as [polls|] eqn:Hwait;
    simpl; [|done].
  destruct (wait_for_nextcloud_status_polls _ _ _ _ Hwait) as [[polls' ->] _].
  destruct (fpm_container env i) as [container_id|].
  - destruct (run_occ_commands (occ env i)) as [events r'] eqn:Hocc.
    assert (Occ DbAddMissingIndices ∈ events) as Hfirst.
    { unfold run_occ_commands in Hocc.
      destruct (check_call (occ env i DbAddMissingIndices)),
        (check_call (occ env i MaintenanceRepair)), (check_call (occ env i OccUpgrade));
        simplify_eq; by left. }
    destruct r' as [[]|e]; intros [= <- <-]; simpl; (split; [done|]);
      eexists; rewrite <-!app_assoc; (split; [done|]); intros _;
      eexists; (split; [done|]); intros _;
      rewrite !elem_of_app; auto.
  - intros [= <- <-]. simpl. split; [done|].
    eexists. rewrite <-!app_assoc. split; [done|]. intros _.
    eexists. split; [done|]. by intros [? ?].
Qed.

(** C5.  A run that ends because the containers of step [k] did not
    start: [docker-compose up] of that step exited with a non-zero
    status, it is the last thing the run did, the log holds no step
    after [k] and no image update for a later version of the plan, and
    the compose file carries the tag of step [k] for the services it
    has.  Whenever the start of a step fails in this way the loop
    returns at once, whatever steps remain. *)
Theorem start_failure_aborts_run (env : environment) (fuel : nat) (file : compose_file)
    (k : nat) (m' : machine) :
  run_update_process env fuel file = Some (StartFailed k, m') ->
  (exists available choices update_path v,
     fetch_nextcloud_fpm_versions (hub env) = Some available
     /\ plan_update (installed_version env) available (mode env) = Plan choices update_path
     /\ 1 <= k /\ update_path !! (k - 1) = Some v
     /\ check_call (compose_up env k) = CalledProcessError
     /\ last (log m') = Some ComposeUp
     /\ (forall j t w, StepRule j t w ∈ log m' -> j <= k)
     /\ (forall s w, ImageUpdated s w ∈ log m' ->
           exists j, j < k /\ update_path !! j = Some w)
     /\ (has_service "nextcloud-fpm" file ->
         service_image "nextcloud-fpm" (compose m') = Some (YStr ("nextcloud:" +:+ v)))
     /\ (has_service "nextcloud-cron" file ->
         service_image "nextcloud-cron" (compose m') = Some (YStr ("nextcloud:" +:+ v))))
  /\ (forall i n v rest m,
        check_call (compose_down env i) = Done ->
        check_call (compose_up env i) = CalledProcessError ->
        exists m2, for_steps env fuel i n (v :: rest) m = Some (StartFailed i, m2)
          /\ compose m2 = after_updates v (compose m)
          /\ last (log m2) = Some ComposeUp).
Proof.
  intros Hrun. split.
  - unfold run_update_process in Hrun.
    destruct (fetch_nextcloud_fpm_versions (hub env)) as [available|] eqn:Havail; [|done].
    simpl in Hrun.
    destruct (plan_update _ _ _) as [| | |choices update_path] eqn:Hplan; [done..|].
    assert (for_steps env fuel 1 (length update_path) update_path
              {| compose := file; log := [] |} = Some (StartFailed k, m')) as Hsteps
      by by destruct update_path.
    apply for_steps_StartFailed in Hsteps
      as (v & events & Hk & Hv & Hup & Hlast & Hlog & Hrule & Himg & _ & Hfpm & Hcron).
    simpl in Hlog. subst events.
    exists available, choices, update_path, v. split_and!; [done..| | |done|done].
    + intros j t w ?%Hrule. lia.
    + intros s w (j & Hj & Hw)%Himg. exists j. split; [lia|done].
  - intros i n v rest m Hdown Hup. simpl. unfold upgrade_step. rewrite Hdown, Hup.
    eexists. split; [done|]. simpl. rewrite last_snoc. split; [|done].
    unfold after_updates. by rewrite !update_image_compose.
Qed.

(** C6, amended.  When the container is found, the maintenance commands
    are run in the order index repair, general repair, upgrade, with
    sixty seconds after the first and after the second, up to the first
    command that exits with a non-zero status: the commands after it are
    not run.  No exit status ends the run: the step is declared
    completed and the loop goes on with the next version. *)
Theorem maintenance_until_first_failure (env : environment) (fuel : nat) (i n : nat)
    (v : string) (rest : list string) (m : machine) (polls : list event)
    (container_id : string) :
  check_call (compose_down env i) = Done ->
  check_call (compose_up env i) = Done ->
  wait_for_nextcloud_status fuel (status_php env i) 0 = Some polls ->
  fpm_container env i = Some container_id ->
  (forall c, occ env i c <> NotSpawned) ->
  run_occ_commands (occ env i)
  = (maintenance (occ env i) [DbAddMissingIndices; MaintenanceRepair; OccUpgrade], Ok ())
  /\ exists before m',
       upgrade_step env fuel i n v m = Some (None, m')
       /\ log m' = log m ++ before
                   ++ maintenance (occ env i) [DbAddMissingIndices; MaintenanceRepair; OccUpgrade]
                   ++ [StepCompleted i v]
       /\ (forall c, Occ c ∉ before)
       /\ for_steps env fuel i n (v :: rest) m = for_steps env fuel (S i) n rest m'.
Proof.
  intros Hdown Hup Hwait Hcid Hspawned.
  pose proof (run_occ_commands_maintenance _ Hspawned) as Hocc.
  split; [done|].
  destruct (update_image_log v "nextcloud-fpm"
              (emit [Sleep 30] (emit [StepRule i n v; ComposeDown] m))) as (e1 & He1 & Hk1).
  destruct (update_image_log v "nextcloud-cron"
              (update_image v "nextcloud-fpm"
                 (emit [Sleep 30] (emit [StepRule i n v; ComposeDown] m)))) as (e2 & He2 & Hk2).
  exists ([StepRule i n v; ComposeDown; Sleep 30; e1; e2; ComposeUp; Sleep 60] ++ polls).
  simpl. unfold upgrade_step. rewrite Hdown, Hup, Hwait. simpl. rewrite Hcid, Hocc.
  eexists. split; [done|]. split_and!.
  - simpl. rewrite He2, He1. simpl. by rewrite <-!app_assoc.
  - intros c Hc. apply wait_for_nextcloud_status_polls in Hwait as [_ Hpolls].
    rewrite Forall_forall in Hpolls.
    rewrite !elem_of_cons in Hc.
    destruct Hc as [?|[?|[?|[Hc|[Hc|[?|[?|Hc]]]]]]]; try done.
    + by destruct Hk1 as [-> | ->].
    + by destruct Hk2 as [-> | ->].
    + by destruct (Hpolls _ Hc).
  - done.
Qed.

End run_claims.

(** ** The claims on concrete inputs *)

Example fetch_two_pages :
  paging_fpm hub_two_pages
  = Some (Ok (2, ["29.0.4-fpm"; "29-fpm"; "28.0.8-fpm"; "27.1.11-fpm"; "28.0.8-fpm";
                  "28.0.9-fpm"]))
  /\ fetch_nextcloud_fpm_versions hub_two_pages
     = Some ["29.0.4-fpm"; "28.0.9-fpm"; "27.1.11-fpm"].
Proof. split; reflexivity. Qed.

(** With [max_count] below one the bound is met after the first
    insertion: one tag is returned. *)
Example fetch_semver_max_count_zero :
  fetch_semver_versions
    (fun _ _ => Body [Tag "16.2"; Tag "16.3"; Tag "15.7"; Tag "latest"; Tag "16"] false)
    POSTGRES_REPO 0 default_filter = Some ["16.3"].
Proof. reflexivity. Qed.

Example plan_scenarios :
  plan_update "18-fpm" ["21-fpm"; "20-fpm"; "19-fpm"; "18-fpm"] Latest
  = Plan ["21-fpm"; "20-fpm"; "19-fpm"] ["19-fpm"; "20-fpm"; "21-fpm"]
  /\ plan_update "21-fpm" ["21-fpm"; "20-fpm"; "19-fpm"; "18-fpm"] Latest
     = PlanNoNewerVersion.
Proof. split; reflexivity. Qed.

(** The plan for version 18 installed, four majors on offer and target
    20. *)
Lemma upgrade_plan_witness :
  fetch_nextcloud_fpm_versions hub_four_majors
  = Some ["21-fpm"; "20-fpm"; "19-fpm"; "18-fpm"]
  /\ ascending parse_core ["19-fpm"; "20-fpm"]
  /\ "20-fpm" ∈ ["19-fpm"; "20-fpm"].
Proof.
  split; [reflexivity|].
  edestruct (upgrade_plan_ascending_bounded hub_four_majors "18-fpm" (Specific "20-fpm")
               ["21-fpm"; "20-fpm"; "19-fpm"; "18-fpm"] ["21-fpm"; "20-fpm"; "19-fpm"]
               ["19-fpm"; "20-fpm"]) as (Hasc & _ & _ & _ & Htarget); [reflexivity..|].
  split; [exact Hasc|]. apply Htarget. set_solver.
Defined.

(** The second page is answered with an error status: nothing is
    returned, the tags of the first page included. *)
Lemma fetch_never_raises_witness :
  fetch_nextcloud_fpm_versions hub_second_page_fails = Some [].
Proof.
  destruct (fetch_never_raises hub_second_page_fails) as [(L & HL & _ & Hempty) _].
  rewrite HL. f_equal.
  apply (Hempty 2 ["29.0.4-fpm"]); [|reflexivity|exact I].
  eapply at_test_again; [apply at_test_first|reflexivity..].
Defined.

(** Two pages, the second without a next page. *)
Lemma paging_stops_witness :
  stops_at (hub_two_pages NEXTCLOUD_REPO) 2
    ["29.0.4-fpm"; "29-fpm"; "28.0.8-fpm"; "27.1.11-fpm"; "28.0.8-fpm"; "28.0.9-fpm"].
Proof.
  destruct (paging_stops_only_when hub_two_pages) as [Hfpm _].
  by apply Hfpm.
Defined.

(** C8 as stated fails: with fifty accepted tags on every page the loop
    is left with [page = 3] after two requests; no page is empty, every
    page has a next page and the ceiling is far; what ends the loop is
    the hundred tags collected. *)
Lemma paging_stops_on_hundred_tags :
  paging_fpm hub_full_pages = Some (Ok (3, replicate 100 "29-fpm"))
  /\ (forall page,
        hub_full_pages NEXTCLOUD_REPO page = Body (replicate 50 (Tag "29-fpm")) true)
  /\ ~ ((exists next, hub_full_pages NEXTCLOUD_REPO 3 = Body [] next)
        \/ (exists results, hub_full_pages NEXTCLOUD_REPO 3 = Body results false)
        \/ MAX_PAGE < 3).
Proof.
  split_and!; [by vm_compute|done|].
  intros [[next Hempty]|[[results Hnext]|Hceiling]]; [done..|].
  unfold MAX_PAGE in Hceiling. lia.
Qed.

(** The example document is well formed. *)
Lemma example_compose_well_formed : well_formed example_compose.
Proof.
  exists example_services. split; [done|].
  unfold example_services. repeat apply map_Forall_insert_2; [done..|].
  apply map_Forall_empty.
Qed.

(** The example document has no cron service. *)
Lemma absent_service_witness :
  update_docker_compose_images "21-fpm" "nextcloud-cron" (Some example_compose)
  = (Some example_compose, true).
Proof.
  eapply (absent_service_is_skipped "21-fpm" "nextcloud-cron" example_compose
            example_services); [apply example_compose_well_formed|reflexivity..].
Defined.


(** The installed version is "unknown" and the catalogue has entries. *)
Lemma unparsed_installed_version_witness :
  run_update_process env_unknown_online 1 (Some example_compose)
  = Some (ComparisonError, {| compose := Some example_compose; log := [] |}).
Proof.
  edestruct (unparsed_installed_version_stops_run env_unknown_online 1
               (Some example_compose)) as (available & Havail & Hrun); [reflexivity|].
  rewrite Hrun. by injection Havail as <-.
Defined.

(** C3 as stated fails: the installed version is "unknown" and the
    catalogue is empty; the run ends with the message that no newer
    version is available, not with an error. *)
Lemma unparsed_installed_version_without_error :
  parse_core (installed_version env_unknown) = (None : option (list nat))
  /\ fetch_nextcloud_fpm_versions (hub env_unknown) = Some []
  /\ run_update_process env_unknown 1 None
     = Some (NoNewerVersion, {| compose := None; log := [] |}).
Proof. by split_and!. Qed.

(** One step on a compose file that cannot be parsed. *)
Lemma unparseable_compose_file_witness :
  exists m', upgrade_step env_one_step 1 1 1 "21-fpm" {| compose := None; log := [] |}
             = Some (None, m')
    /\ compose m' = None
    /\ exists rest,
         log m' = [StepRule 1 1 "21-fpm"; ComposeDown; Sleep 30;
                   ImageUpdateError "nextcloud-fpm"; ImageUpdateError "nextcloud-cron";
                   ComposeUp] ++ rest.
Proof.
  eexists. split; [reflexivity|].
  edestruct (unparseable_compose_file_is_not_fatal env_one_step 1 1 1 "21-fpm"
               {| compose := None; log := [] |}) as (_ & Hfile & rest & Hlog & _);
    [reflexivity..|].
  split; [exact Hfile|]. exists rest. exact Hlog.
Defined.

(** C4 as stated fails: the compose file cannot be parsed, and the run
    starts the containers, waits for the status, runs the maintenance
    commands and declares the step completed. *)
Lemma unparseable_compose_file_run_goes_on :
  run_update_process env_one_step 1 None
  = Some (Completed,
          {| compose := None;
             log := [StepRule 1 1 "21-fpm"; ComposeDown; Sleep 30;
                     ImageUpdateError "nextcloud-fpm"; ImageUpdateError "nextcloud-cron";
                     ComposeUp; Sleep 60; StatusRequest;
                     Occ DbAddMissingIndices; Sleep 60; Occ MaintenanceRepair; Sleep 60;
                     Occ OccUpgrade; StepCompleted 1 "21-fpm"] |}).
Proof. reflexivity. Qed.

(** Three steps planned, the containers of the second one do not start. *)
Lemma start_failure_witness :
  exists m',
    run_update_process env_start_fails 2 (Some example_compose) = Some (StartFailed 2, m')
    /\ last (log m') = Some ComposeUp
    /\ (forall j t w, StepRule j t w ∈ log m' -> j <= 2)
    /\ service_image "nextcloud-fpm" (compose m') = Some (YStr "nextcloud:20-fpm").
Proof.
  eexists. split; [by vm_compute|].
  edestruct (start_failure_aborts_run env_start_fails 2 (Some example_compose) 2)
    as [(available & choices & update_path & v & Havail & Hplan & _ & Hv & _ & Hlast
         & Hrule & _ & Hfpm & _) _]; [by vm_compute|].
  injection Havail as <-. injection Hplan as <- <-. injection Hv as <-.
  split_and!; [exact Hlast|exact Hrule|].
  apply Hfpm. by eexists _, _.
Defined.

(** The index repair exits with status 1. *)
Lemma maintenance_witness :
  exists m',
    upgrade_step env_occ_fails 1 1 1 "21-fpm" {| compose := None; log := [] |}
    = Some (None, m')
    /\ run_occ_commands (occ env_occ_fails 1) = ([Occ DbAddMissingIndices; OccError], Ok ()).
Proof.
  destruct (maintenance_until_first_failure env_occ_fails 1 1 1 "21-fpm" []
              {| compose := None; log := [] |} [StatusRequest] "4f1d")
    as (Hocc & before & m' & Hstep & _);
    [reflexivity|reflexivity|reflexivity|reflexivity|by intros []|].
  exists m'. split; [exact Hstep|exact Hocc].
Defined.

(** C6 as stated fails: the index repair exits with status 1, and the
    general repair and the upgrade are not run in that step; the step is
    still declared completed. *)
Lemma maintenance_stops_at_first_failure :
  (fun r => (r.1, log r.2)) <$> run_update_process env_occ_fails 1 (Some example_compose)
  = Some (Completed,
          [StepRule 1 1 "21-fpm"; ComposeDown; Sleep 30;
           ImageUpdated "nextcloud-fpm" "21-fpm"; ImageUpdated "nextcloud-cron" "21-fpm";
           ComposeUp; Sleep 60; StatusRequest;
           Occ DbAddMissingIndices; OccError; StepCompleted 1 "21-fpm"]).
Proof. by vm_compute. Qed.

(** ** More on the catalogue *)

Section catalogue_more.
Context `{PackagingVersion V} `{SetOrder}.

(** The tags the dictionary loop has looked at, and the ones it left
    out because the dictionary was full. *)
Lemma fold_majors_processed key max_count tags distinct out :
  fold_majors key max_count tags distinct = Ok out ->
  exists pre rest new,
    tags = pre ++ rest /\ out = distinct ++ new
    /\ (tags <> [] -> pre <> [])
    /\ (forall u vu, u ∈ pre -> key u = Some vu -> major vu ∈ out.*1)
    /\ Forall (fun e => e.2 ∈ pre) new
    /\ (rest <> [] -> (max_count <= Z.of_nat (length out))%Z).
Proof.
  revert distinct. induction tags as [|tag rest0 IH]; intros distinct; simpl.
  - intros [= <-]. exists [], [], [].
    split_and!; rewrite ?app_nil_r; try done; try constructor.
    by intros u vu ?%elem_of_nil.
  - destruct (key tag) as [ver|] eqn:Hkey; [|done].
    set (distinct' := if bool_decide _ then _ else _).
    assert (exists new0, distinct' = distinct ++ new0 /\ Forall (fun e => e.2 = tag) new0
              /\ major ver ∈ distinct'.*1) as (new0 & Hd' & Hnew0 & Hmaj).
    { subst distinct'. case_bool_decide.
      - exists []. rewrite app_nil_r. by split_and!; [|constructor|].
      - exists [(major ver, tag)]. split_and!; [done|by repeat constructor|].
        rewrite fmap_app. apply elem_of_app. right. by left. }
    destruct (Z.leb_spec max_count (Z.of_nat (length distinct'))).
    + intros [= <-]. exists [tag], rest0, new0. split_and!; [done..| | |done].
      * intros u vu ->%list_elem_of_singleton Hu. by simplify_eq.
      * eapply Forall_impl; [done|]. intros e ->. by left.
    + intros (pre & rest & new & -> & -> & _ & Hpre & Hnew & Hfull)%IH.
      exists (tag :: pre), rest, (new0 ++ new). split_and!.
      * done.
      * by rewrite Hd', <-app_assoc.
      * done.
      * intros u vu [->|Hu]%elem_of_cons Hku.
        -- assert (vu = ver) as -> by congruence.
           rewrite fmap_app. apply elem_of_app. by left.
        -- by eapply Hpre.
      * apply Forall_app. split.
        -- eapply Forall_impl; [done|]. intros e ->. by left.
        -- eapply Forall_impl; [done|]. intros e He. by right.
      * done.
Qed.

(** What [select_majors] leaves out. *)
Lemma select_majors_left_out key max_count all_versions L u vu :
  select_majors key max_count all_versions = Ok L ->
  u ∈ all_versions -> key u = Some vu -> ~ major_listed key L u ->
  (max_count <= Z.of_nat (length L))%Z
  /\ forall t vt, t ∈ L -> key t = Some vt -> version_lt vt vu = false.
Proof.
  unfold select_majors, major_listed. intros Hsel Hu Hku Hnot.
  destruct (sorted key true (set_iter all_versions)) as [sorted_tags|] eqn:Hsorted;
    simpl in Hsel; [|done].
  destruct (fold_majors key max_count sorted_tags []) as [distinct|] eqn:Hfold;
    simpl in Hsel; [|done].
  pose proof (weakly_descending_sorted _ _ _ Hsorted) as Hweak.
  apply sorted_Ok in Hsorted as (_ & _ & _ & _ & Hperm).
  apply sorted_Ok in Hsel as (dL & -> & _ & _ & HpL).
  pose proof (fold_majors_extends _ _ _ _ _ Hfold) as (new' & Hnew' & Hfiled & _).
  simpl in Hnew'. subst new'.
  apply fold_majors_processed in Hfold
    as (pre & rest & new & -> & Hout & _ & Hpre & Hnew & Hfull).
  simpl in Hout. subst new.
  assert (tag_major key <$> dL.*2 ≡ₚ Some <$> distinct.*1) as Hmajors
    by by rewrite HpL, (filed_tag_major _ _ Hfiled).
  assert (u ∈ rest) as Hrest.
  { apply (proj2 (set_iter_elem _ _)) in Hu. rewrite <-Hperm in Hu.
    apply elem_of_app in Hu as [Hu|Hu]; [|done].
    destruct Hnot. rewrite Hmajors. unfold tag_major. rewrite Hku. simpl.
    apply list_elem_of_fmap. eexists. split; [done|]. by eapply Hpre. }
  split.
  - rewrite HpL, length_fmap. apply Hfull. by intros ->; apply elem_of_nil in Hrest.
  - intros t vt Ht Hkt. rewrite HpL in Ht.
    apply list_elem_of_fmap in Ht as (e & -> & He).
    rewrite Forall_forall in Hnew. specialize (Hnew e He).
    destruct (version_lt vt vu) eqn:Hlt; [|done].
    destruct (StronglySorted_app_1_elem_of _ _ _ _ _ Hweak Hnew Hrest).
    by exists vt, vu.
Qed.

(** Tags collected, tags returned. *)
Lemma select_majors_nonempty key max_count all_versions L :
  select_majors key max_count all_versions = Ok L -> all_versions <> [] -> L <> [].
Proof.
  unfold select_majors. intros Hsel Hall.
  destruct (sorted key true (set_iter all_versions)) as [sorted_tags|] eqn:Hsorted;
    simpl in Hsel; [|done].
  destruct (fold_majors key max_count sorted_tags []) as [distinct|] eqn:Hfold;
    simpl in Hsel; [|done].
  pose proof Hsorted as (d & Hd & Hk & _ & Hperm)%sorted_Ok.
  apply sorted_Ok in Hsel as (dL & -> & _ & _ & HpL).
  apply fold_majors_processed in Hfold
    as (pre & rest & new & -> & Hout & Hne & Hpre & _ & _).
  destruct all_versions as [|u0 all']; [done|].
  assert (u0 ∈ set_iter (u0 :: all')) as Hu0 by (apply set_iter_elem; by left).
  rewrite <-Hperm in Hu0.
  destruct pre as [|t pre'].
  { destruct Hne; [|done]. simpl in *. intros ->. by apply elem_of_nil in Hu0. }
  assert (is_Some (key t)) as [vt Hvt].
  { unfold keyed in Hk. rewrite Forall_forall in Hk.
    assert (t ∈ d.*2) as (kx & -> & Hkx)%list_elem_of_fmap by (rewrite <-Hd; by left).
    eexists. by apply Hk. }
  intros HL. apply (f_equal length) in HL. rewrite HpL, !length_fmap in HL.
  pose proof (Hpre t vt (ltac:(by left)) Hvt) as Hin.
  destruct distinct; [by apply elem_of_nil in Hin|done].
Qed.

(** The first tag returned is the highest of all. *)
Lemma select_majors_head key max_count all_versions L :
  select_majors key max_count all_versions = Ok L ->
  Forall (fun t => is_Some (key t)) all_versions ->
  all_versions <> [] ->
  exists t vt L', L = t :: L' /\ key t = Some vt
    /\ forall u vu, u ∈ all_versions -> key u = Some vu -> version_lt vt vu = false.
Proof.
  intros Hsel Hall Hne.
  pose proof (select_majors_nonempty _ _ _ _ Hsel Hne) as HL.
  destruct (select_majors_catalogue key max_count all_versions Hall)
    as (L0 & HL0 & Hsub & Hkey & Hnd & Hhigh & Hdesc & _).
  assert (L0 = L) as -> by congruence.
  destruct L as [|t L']; [done|].
  inversion Hkey as [|?? [vt Hvt] HkL']; subst.
  exists t, vt, L'. split_and!; [done..|].
  assert (forall t' vt', t' ∈ t :: L' -> key t' = Some vt' -> version_lt vt vt' = false)
    as Hhead.
  { intros t' vt' [->|Ht']%elem_of_cons Hvt'.
    - assert (vt' = vt) as -> by congruence. apply version_lt_irrefl.
    - inversion Hdesc as [|?? _ Hfirst]; subst.
      rewrite Forall_forall in Hfirst.
      destruct (Hfirst t' Ht') as (ka & kb & Ha & Hb & Hlt).
      assert (ka = vt') as -> by congruence. assert (kb = vt) as -> by congruence.
      by apply version_lt_asym. }
  intros u vu Hu Hku.
  destruct (decide (tag_major key u ∈ tag_major key <$> t :: L')) as [Hlisted|Hnot].
  - apply list_elem_of_fmap in Hlisted as (t' & Hmaj & Ht').
    rewrite Forall_forall in Hkey. destruct (Hkey t' Ht') as [vt' Hvt'].
    unfold tag_major in Hmaj. rewrite Hku, Hvt' in Hmaj. simpl in Hmaj.
    injection Hmaj as Hmaj.
    eapply version_nlt_trans; [by eapply Hhead|by eapply Hhigh].
  - by eapply (proj2 (select_majors_left_out _ _ _ _ _ _ Hsel Hu Hku Hnot)); [left|].
Qed.

(** After the paging loop, [fetch_nextcloud_fpm_versions] returns what
    [select_majors] makes of the tags collected. *)
Lemma fetch_fpm_select hub p all_versions L :
  paging_fpm hub = Some (Ok (p, all_versions)) ->
  fetch_nextcloud_fpm_versions hub = Some L ->
  select_majors parse_core 10 all_versions = Ok L
  /\ Forall (fun t => is_Some (parse_core t)) all_versions.
Proof.
  unfold fetch_nextcloud_fpm_versions, paging_fpm. intros Hpaging.
  pose proof (paging_then_select keep_fpm parse_core 10 (hub NEXTCLOUD_REPO)) as Hsel.
  rewrite Hpaging in *. simpl.
  destruct Hsel as (Hall & L0 & HL0 & _); [by intros t (_ & _ & ?)%keep_fpm_true|].
  rewrite HL0. simpl. intros [= <-]. split; [done|].
  eapply Forall_impl; [done|]. by intros t (_ & _ & ?)%keep_fpm_true.
Qed.

Lemma fetch_semver_select hub docker_repo max_count filter_substrings p all_versions L :
  paging_semver hub docker_repo filter_substrings = Some (Ok (p, all_versions)) ->
  fetch_semver_versions hub docker_repo max_count filter_substrings = Some L ->
  select_majors Version max_count all_versions = Ok L
  /\ Forall (fun t => is_Some (Version t)) all_versions.
Proof.
  unfold fetch_semver_versions, paging_semver. intros Hpaging.
  pose proof (paging_then_select (keep_semver filter_substrings) Version max_count
                (hub docker_repo)) as Hsel.
  rewrite Hpaging in *. simpl.
  destruct Hsel as (Hall & L0 & HL0 & _); [by intros t (_ & ?)%keep_semver_true|].
  rewrite HL0. simpl. intros [= <-]. split; [done|].
  eapply Forall_impl; [done|]. by intros t (_ & ?)%keep_semver_true.
Qed.

(** X1.  When the paging loop of a fetch function ends normally with at
    least one accepted tag, the list returned is not empty and its
    first entry is the latest version: no accepted tag of any page read
    parses to a higher version.  This is the entry the installation
    takes by default ([versions[0]]) and the one
    [update_additional_container] compares with the running version. *)
Theorem fetch_first_is_latest (hub : registry) :
  (forall p all_versions L,
     paging_fpm hub = Some (Ok (p, all_versions)) ->
     fetch_nextcloud_fpm_versions hub = Some L ->
     all_versions <> [] ->
     headed_by_highest parse_core all_versions L)
  /\ (forall docker_repo max_count filter_substrings p all_versions L,
        paging_semver hub docker_repo filter_substrings = Some (Ok (p, all_versions)) ->
        fetch_semver_versions hub docker_repo max_count filter_substrings = Some L ->
        all_versions <> [] ->
        headed_by_highest Version all_versions L).
Proof.
  split.
  - intros p all_versions L Hpaging [Hsel Hall]%(fetch_fpm_select _ _ _ _ Hpaging) Hne.
    by apply (select_majors_head _ _ _ _ Hsel).
  - intros docker_repo max_count filter_substrings p all_versions L Hpaging
      [Hsel Hall]%(fetch_semver_select _ _ _ _ _ _ _ Hpaging) Hne.
    by apply (select_majors_head _ _ _ _ Hsel).
Qed.

(** X2.  [fetch_semver_versions] with [max_count] at most one (zero and
    negative numbers included) returns exactly one tag when the paging
    loop ends normally with an accepted tag: the bound is tested after
    the first insertion.  That tag is the latest version collected. *)
Theorem fetch_semver_max_count_below_one (hub : registry) (docker_repo : string)
    (max_count : Z) (filter_substrings : list string) (p : nat)
    (all_versions : list string) :
  (max_count <= 1)%Z ->
  paging_semver hub docker_repo filter_substrings = Some (Ok (p, all_versions)) ->
  all_versions <> [] ->
  exists t vt,
    fetch_semver_versions hub docker_repo max_count filter_substrings = Some [t]
    /\ Version t = Some vt
    /\ forall u vu, u ∈ all_versions -> Version u = Some vu -> version_lt vt vu = false.
Proof.
  intros Hmax Hpaging Hne.
  pose proof (fetch_semver_outcome hub docker_repo max_count filter_substrings) as Hout.
  rewrite Hpaging in Hout. destruct Hout as (L & HL & Hcat & _).
  destruct (fetch_semver_select _ _ _ _ _ _ _ Hpaging HL) as [Hsel Hall].
  destruct (select_majors_head _ _ _ _ Hsel Hall Hne) as (t & vt & L' & -> & Hvt & Hhigh).
  destruct Hcat as (_ & _ & _ & _ & _ & Hlen).
  destruct L' as [|t' L'']; [|simpl in Hlen; lia].
  by exists t, vt.
Qed.

(** X3.  A major version is missing from the list a fetch function
    returns only when the list is full (10 entries, [max_count] for
    [fetch_semver_versions]), and then every tag of the missing major
    is no higher than any tag returned: the majors kept are the highest
    ones. *)
Theorem fetch_leaves_out_lower_majors (hub : registry) :
  (forall p all_versions L,
     paging_fpm hub = Some (Ok (p, all_versions)) ->
     fetch_nextcloud_fpm_versions hub = Some L ->
     left_out_below parse_core 10 all_versions L)
  /\ (forall docker_repo max_count filter_substrings p all_versions L,
        paging_semver hub docker_repo filter_substrings = Some (Ok (p, all_versions)) ->
        fetch_semver_versions hub docker_repo max_count filter_substrings = Some L ->
        left_out_below Version max_count all_versions L).
Proof.
  split.
  - intros p all_versions L Hpaging [Hsel _]%(fetch_fpm_select _ _ _ _ Hpaging)
      u vu Hu Hku Hnot.
    by eapply select_majors_left_out.
  - intros docker_repo max_count filter_substrings p all_versions L Hpaging
      [Hsel _]%(fetch_semver_select _ _ _ _ _ _ _ Hpaging) u vu Hu Hku Hnot.
    by eapply select_majors_left_out.
Qed.

End catalogue_more.

(** ** More on the paging loop *)

Section paging_more.
Context `{PackagingVersion V}.

Lemma for_results_app keep results all all' :
  for_results keep results all = Ok all' ->
  all' = all ++ filter (fun t => keep t = true) (item_tag <$> results).
Proof.
  revert all. induction results as [|item rest IH]; intros all; simpl.
  - intros [= <-]. by rewrite app_nil_r.
  - destruct item as [name| |]; simpl; [| |done].
    + intros ->%IH. rewrite filter_cons.
      destruct (keep name); simpl; by rewrite <-?app_assoc.
    + intros ->%IH. rewrite filter_cons.
      destruct (keep EmptyString); simpl; by rewrite <-?app_assoc.
Qed.

Lemma page_turn_tags keep hub page all fl :
  page_turn keep hub page all = Ok fl ->
  match fl with Continue st | Break st => st.2 end = all ++ page_tags keep (hub page).
Proof.
  unfold page_turn, page_tags. destruct (hub page) as [| | | |results next]; try done.
  destruct results as [|item rest]; [intros [= <-]; by rewrite app_nil_r|].
  destruct (for_results keep (item :: rest) all) as [all'|] eqn:Hfor; simpl; [|done].
  apply for_results_app in Hfor. destruct next; by intros [= <-].
Qed.

Lemma pages_tags_S keep hub first n :
  pages_tags keep hub first (S n)
  = page_tags keep (hub first) ++ pages_tags keep hub (S first) n.
Proof. done. Qed.

Lemma while_pages_collects fuel keep hub page all p all' :
  while_pages fuel keep hub page all = Some (Ok (p, all')) ->
  page <= p
  /\ (all' = all ++ pages_tags keep hub page (p - page)
      \/ all' = all ++ pages_tags keep hub page (S p - page)).
Proof.
  revert page all. induction fuel as [|fuel IH]; intros page all; simpl.
  - destruct (page_cond page all); [done|]. intros [= <- <-].
    split; [done|]. left. by rewrite Nat.sub_diag, app_nil_r.
  - destruct (page_cond page all);
      [|intros [= <- <-]; split; [done|]; left; by rewrite Nat.sub_diag, app_nil_r].
    destruct (page_turn keep hub page all) as [[[page' all1]|[p1 all1]]|e] eqn:Hturn;
      [| |done].
    + pose proof (page_turn_tags _ _ _ _ _ Hturn) as Htags. simpl in Htags.
      apply page_turn_Continue in Hturn as [-> _].
      intros [Hle Hall]%IH. split; [lia|]. rewrite Htags in Hall.
      destruct Hall as [-> | ->]; [left|right]; rewrite <-app_assoc.
      * replace (p - page) with (S (p - (page + 1))) by lia.
        by rewrite pages_tags_S, Nat.add_1_r.
      * replace (S p - page) with (S (S p - (page + 1))) by lia.
        by rewrite pages_tags_S, Nat.add_1_r.
    + pose proof (page_turn_tags _ _ _ _ _ Hturn) as Htags. simpl in Htags.
      apply page_turn_Break in Hturn as [Hp _]. simpl in Hp. subst p1.
      intros [= <- <-]. split; [done|]. right.
      replace (S page - page) with 1 by lia.
      rewrite Htags, pages_tags_S. simpl. by rewrite app_nil_r.
Qed.

(** X4.  When the paging loop ends normally at page [p], the tags it
    has collected are the accepted tags of the pages 1, 2, ... in page
    order and in the order of each page, duplicates kept: those of the
    pages before [p], or those up to [p] included.  Nothing is dropped,
    reordered or taken from elsewhere. *)
Theorem paging_collects_pages_in_order (hub : registry) :
  (forall p all_versions,
     paging_fpm hub = Some (Ok (p, all_versions)) ->
     1 <= p
     /\ (all_versions = pages_tags keep_fpm (hub NEXTCLOUD_REPO) 1 (p - 1)
         \/ all_versions = pages_tags keep_fpm (hub NEXTCLOUD_REPO) 1 p))
  /\ (forall docker_repo filter_substrings p all_versions,
        paging_semver hub docker_repo filter_substrings = Some (Ok (p, all_versions)) ->
        1 <= p
        /\ (all_versions
              = pages_tags (keep_semver filter_substrings) (hub docker_repo) 1 (p - 1)
            \/ all_versions
                 = pages_tags (keep_semver filter_substrings) (hub docker_repo) 1 p)).
Proof.
  split.
  - intros p all_versions [Hp Hall]%while_pages_collects. split; [done|].
    by replace (S p - 1) with p in Hall by lia.
  - intros docker_repo filter_substrings p all_versions [Hp Hall]%while_pages_collects.
    split; [done|]. by replace (S p - 1) with p in Hall by lia.
Qed.

End paging_more.

(** ** More on the compose file *)

Section compose_more.

Lemma update_file new_version service file :
  (update_docker_compose_images new_version service file).1
  = image_replaced new_version service file.
Proof.
  destruct (update_cases new_version service file)
    as [Hupd|[Hupd|(top & services & entry & -> & Htop & Hs & ->)]].
  - rewrite Hupd. simpl. unfold image_replaced.
    destruct file as [[| | | | |top]|]; try done.
    destruct (top !! "services") as [[| | | | |services]|] eqn:Htop; try done.
    destruct (services !! service) as [[| | | | |entry]|] eqn:Hs; try done.
    by rewrite (update_present _ _ _ _ _ Htop Hs) in Hupd.
  - rewrite Hupd. simpl. unfold image_replaced.
    destruct file as [[| | | | |top]|]; try done.
    destruct (top !! "services") as [[| | | | |services]|] eqn:Htop; try done.
    destruct (services !! service) as [[| | | | |entry]|] eqn:Hs; try done.
    rewrite (update_present _ _ _ _ _ Htop Hs) in Hupd.
    injection Hupd as Heq. by rewrite Heq.
  - simpl. by rewrite Htop, Hs.
Qed.


(** X5.  Two calls of [update_docker_compose_images] for the same
    service leave the file, and print the message, of the second call
    alone: the last version written wins and nothing of the first call
    remains.  This holds for every file, unreadable ones included. *)
Theorem update_last_write_wins (v1 v2 service : string) (file : compose_file) :
  update_docker_compose_images v2 service
    (update_docker_compose_images v1 service file).1
  = update_docker_compose_images v2 service file.
Proof.
  destruct (update_cases v1 service file)
    as [->|[->|(top & services & entry & -> & Htop & Hs & ->)]]; [done..|].
  simpl. rewrite (update_present v2 _ _ _ _ Htop Hs).
  erewrite update_present; [|apply lookup_insert_eq..].
  by rewrite !insert_insert_eq.
Qed.


(** X7.  [update_docker_compose_images] never creates and never loses
    the compose file, and it never adds or removes a service: the file
    is readable afterwards exactly when it was before, the document
    left has the same service names, and it is well formed when the
    document was. *)
Theorem update_keeps_shape (new_version service : string) (file : compose_file) :
  (is_Some (update_docker_compose_images new_version service file).1 <-> is_Some file)
  /\ forall d, file = Some d ->
       exists d',
         (update_docker_compose_images new_version service file).1 = Some d'
         /\ (well_formed d -> well_formed d')
         /\ forall s, is_Some (service_entry s d') <-> is_Some (service_entry s d).
Proof.
  rewrite update_file. unfold image_replaced.
  destruct file as [d|]; [|split; [done|by intros]].
  destruct d as [| | | | |top];
    try (split; [done|]; intros d [= <-]; eexists; by split_and!).
  destruct (top !! "services") as [[| | | | |services]|] eqn:Htop;
    try (split; [done|]; intros d [= <-]; eexists; by split_and!).
  destruct (services !! service) as [[| | | | |entry]|] eqn:Hs;
    try (split; [done|]; intros d [= <-]; eexists; by split_and!).
  split; [by split; eauto|]. intros d [= <-]. eexists. split; [done|]. split.
  - intros (services' & Hsv & Hwf). unfold compose_services in Hsv.
    rewrite Htop in Hsv. injection Hsv as <-.
    eexists. split; [unfold compose_services; by rewrite lookup_insert_eq|].
    by apply map_Forall_insert_2.
  - intros s. rewrite service_entry_insert, (service_entry_services _ _ _ Htop).
    case_decide as Heq; [|done]. subst s. rewrite Hs. by split; eauto.
Qed.

End compose_more.

(** ** More on the run *)

Section run_more.
Context `{PackagingVersion V} `{SetOrder}.

Lemma completed_steps_polls fuel status attempt polls :
  wait_for_nextcloud_status fuel status attempt = Some polls ->
  completed_steps polls = [].
Proof.
  intros [_ Hpolls]%wait_for_nextcloud_status_polls.
  induction Hpolls as [|e polls [-> | ->] _ IH]; done.
Qed.

Lemma completed_steps_occ exec : completed_steps (run_occ_commands exec).1 = [].
Proof.
  unfold run_occ_commands.
  by destruct (check_call (exec DbAddMissingIndices)),
    (check_call (exec MaintenanceRepair)), (check_call (exec OccUpgrade)).
Qed.

Lemma completed_steps_app l1 l2 :
  completed_steps (l1 ++ l2) = completed_steps l1 ++ completed_steps l2.
Proof. apply omap_app. Qed.

(** A turn after which the loop goes on. *)
Lemma upgrade_step_goes_on env fuel i n v m m' :
  upgrade_step env fuel i n v m = Some (None, m') ->
  compose m' = after_updates v (compose m)
  /\ exists events, log m' = log m ++ events /\ completed_steps events = [(i, v)].
Proof.
  unfold upgrade_step.
  destruct (check_call (compose_down env i)); [|done..].
  destruct (update_image_log v "nextcloud-fpm"
              (emit [Sleep 30] (emit [StepRule i n v; ComposeDown] m))) as (e1 & He1 & Hk1).
  destruct (update_image_log v "nextcloud-cron"
              (update_image v "nextcloud-fpm"
                 (emit [Sleep 30] (emit [StepRule i n v; ComposeDown] m)))) as (e2 & He2 & Hk2).
  set (m2 := update_image v "nextcloud-cron" _) in *.
  assert (compose m2 = after_updates v (compose m)) as Hfile
    by (subst m2; by rewrite !update_image_compose).
  assert (log m2 = log m ++ [StepRule i n v; ComposeDown; Sleep 30; e1; e2]) as Hlog.
  { rewrite He2, He1. simpl. by rewrite <-!app_assoc. }
  assert (completed_steps [e1; e2] = []) as He
    by (by destruct Hk1 as [-> | ->], Hk2 as [-> | ->]).
  clearbody m2.
  destruct (check_call (compose_up env i)); [|done..].
  destruct (wait_for_nextcloud_status fuel (status_php env i) 0) as [polls|] eqn:Hwait;
    simpl; [|done].
  apply completed_steps_polls in Hwait.
  destruct (fpm_container env i) as [container_id|].
  - pose proof (completed_steps_occ (occ env i)) as Hocc.
    destruct (run_occ_commands (occ env i)) as [events [[]|e]]; [|done].
    intros [= <-]. simpl. split; [done|]. rewrite Hlog, <-!app_assoc.
    eexists. split; [done|].
    change (completed_steps ([StepRule i n v; ComposeDown; Sleep 30] ++ [e1; e2]
              ++ [ComposeUp; Sleep 60] ++ polls ++ events ++ [StepCompleted i v])
            = [(i, v)]).
    rewrite !completed_steps_app, He, Hwait. simpl in Hocc. by rewrite Hocc.
  - intros [= <-]. simpl. split; [done|]. rewrite Hlog, <-!app_assoc.
    eexists. split; [done|].
    change (completed_steps ([StepRule i n v; ComposeDown; Sleep 30] ++ [e1; e2]
              ++ [ComposeUp; Sleep 60] ++ polls
              ++ [ContainerNotFound; StepCompleted i v]) = [(i, v)]).
    by rewrite !completed_steps_app, He, Hwait.
Qed.

(** A turn that ends because the containers could not be stopped. *)
Lemma upgrade_step_StopFailed env fuel i n v m k m' :
  upgrade_step env fuel i n v m = Some (Some (StopFailed k), m') ->
  k = i
  /\ check_call (compose_down env i) = CalledProcessError
  /\ m' = emit [StepRule i n v; ComposeDown] m.
Proof.
  unfold upgrade_step.
  destruct (check_call (compose_down env i)); [|by intros [= <- <-]|done].
  destruct (check_call (compose_up env i)); [|done..].
  destruct (wait_for_nextcloud_status fuel (status_php env i) 0); simpl; [|done].
  destruct (fpm_container env i); [|done].
  by destruct (run_occ_commands (occ env i)) as [? [[]|]].
Qed.

(** The ways in which a turn ends the run. *)
Lemma upgrade_step_exit env fuel i n v m x m' :
  upgrade_step env fuel i n v m = Some (Some x, m') ->
  x = StopFailed i \/ x = StartFailed i \/ exists e, x = Uncaught e.
Proof.
  unfold upgrade_step.
  destruct (check_call (compose_down env i)); [|intros [= <- <-]; by eauto..].
  destruct (check_call (compose_up env i)); [|intros [= <- <-]; by eauto..].
  destruct (wait_for_nextcloud_status fuel (status_php env i) 0); simpl; [|done].
  destruct (fpm_container env i); [|done].
  destruct (run_occ_commands (occ env i)) as [? [[]|]]; [done|].
  intros [= <- <-]. by eauto.
Qed.

Lemma after_steps_snoc versions v file :
  after_steps (versions ++ [v]) file = after_updates v (after_steps versions file).
Proof. unfold after_steps. by rewrite foldl_app. Qed.

Lemma has_service_after_steps versions s file :
  has_service s file -> has_service s (after_steps versions file).
Proof.
  revert file. induction versions as [|v versions IH]; intros file Hs; simpl; [done|].
  apply IH. by apply has_service_after_updates.
Qed.

Lemma for_steps_Completed env fuel i n update_path m m' :
  for_steps env fuel i n update_path m = Some (Completed, m') ->
  compose m' = after_steps update_path (compose m)
  /\ exists events, log m' = log m ++ events
       /\ completed_steps events = zip (seq i (length update_path)) update_path.
Proof.
  revert i m. induction update_path as [|v rest IH]; intros i m; simpl.
  - intros [= <-]. split; [done|]. exists []. by rewrite app_nil_r.
  - destruct (upgrade_step env fuel i n v m) as [[[x|] m1]|] eqn:Hstep; [| |done].
    + intros [= -> ->]. by apply upgrade_step_exit in Hstep as [?|[?|[? ?]]].
    + apply upgrade_step_goes_on in Hstep as (Hfile & events1 & Hlog1 & Hcompl1).
      intros (Hfile' & events & Hlog & Hcompl)%IH. split; [by rewrite Hfile', Hfile|].
      exists (events1 ++ events). split; [by rewrite Hlog, Hlog1, app_assoc|].
      by rewrite completed_steps_app, Hcompl1, Hcompl.
Qed.

Lemma for_steps_StopFailed env fuel i n update_path m k m' :
  for_steps env fuel i n update_path m = Some (StopFailed k, m') ->
  i <= k < i + length update_path
  /\ check_call (compose_down env k) = CalledProcessError
  /\ last (log m') = Some ComposeDown
  /\ compose m' = after_steps (take (k - i) update_path) (compose m)
  /\ exists events, log m' = log m ++ events
       /\ completed_steps events = zip (seq i (k - i)) (take (k - i) update_path).
Proof.
  revert i m. induction update_path as [|v rest IH]; intros i m; simpl; [done|].
  destruct (upgrade_step env fuel i n v m) as [[[x|] m1]|] eqn:Hstep; [| |done].
  - intros [= -> ->]. apply upgrade_step_StopFailed in Hstep as (-> & Hdown & ->).
    rewrite Nat.sub_diag. simpl. split_and!; [lia|lia|done|by rewrite last_app|done|].
    by eexists.
  - apply upgrade_step_goes_on in Hstep as (Hfile & events1 & Hlog1 & Hcompl1).
    intros (Hk & Hdown & Hlast & Hfile' & events & Hlog & Hcompl)%IH.
    replace (k - i) with (S (k - S i)) by lia. simpl.
    split_and!; [lia|lia|done|done|by rewrite Hfile', Hfile|].
    exists (events1 ++ events). split; [by rewrite Hlog, Hlog1, app_assoc|].
    by rewrite completed_steps_app, Hcompl1, Hcompl.
Qed.

(** The versions whose image the loop writes are versions of the path. *)
Lemma for_steps_images env fuel i n update_path m x m' :
  for_steps env fuel i n update_path m = Some (x, m') ->
  exists events, log m' = log m ++ events
    /\ forall s w, ImageUpdated s w ∈ events -> w ∈ update_path.
Proof.
  revert i m. induction update_path as [|v rest IH]; intros i m; simpl.
  - intros [= <- <-]. exists []. rewrite app_nil_r. split; [done|].
    by intros s w ?%elem_of_nil.
  - destruct (upgrade_step env fuel i n v m) as [[[x1|] m1]|] eqn:Hstep; [| |done].
    + intros [= -> ->].
      apply upgrade_step_effect in Hstep as [(events & Hlog & Hev) _].
      exists events. split; [done|]. rewrite Forall_forall in Hev.
      intros s w ->%Hev. by left.
    + apply upgrade_step_effect in Hstep as [(events1 & Hlog1 & Hev1) _].
      intros (events & Hlog & Hev)%IH. rewrite Forall_forall in Hev1.
      exists (events1 ++ events). split; [by rewrite Hlog, Hlog1, app_assoc|].
      intros s w [->%Hev1|?%Hev]%elem_of_app; [by left|by right].
Qed.

Lemma service_image_after_steps versions v file :
  last versions = Some v ->
  (has_service "nextcloud-fpm" file ->
   service_image "nextcloud-fpm" (after_steps versions file)
   = Some (YStr ("nextcloud:" +:+ v)))
  /\ (has_service "nextcloud-cron" file ->
      service_image "nextcloud-cron" (after_steps versions file)
      = Some (YStr ("nextcloud:" +:+ v))).
Proof.
  intros Hlast. destruct versions as [|v0 versions] using rev_ind; [done|].
  rewrite last_snoc in Hlast. injection Hlast as ->.
  rewrite after_steps_snoc.
  split; intros Hs; apply service_image_after_updates; by apply has_service_after_steps.
Qed.

(** The run is its planning followed by the step loop. *)
Lemma run_cases env fuel file x m' :
  run_update_process env fuel file = Some (x, m') ->
  exists available,
    fetch_nextcloud_fpm_versions (hub env) = Some available
    /\ match plan_update (installed_version env) available (mode env) with
       | PlanComparisonError => x = ComparisonError /\ m' = {| compose := file; log := [] |}
       | PlanNoNewerVersion => x = NoNewerVersion /\ m' = {| compose := file; log := [] |}
       | PlanUncaught e => x = Uncaught e /\ m' = {| compose := file; log := [] |}
       | Plan _ [] => x = NoStepsRequired /\ m' = {| compose := file; log := [] |}
       | Plan _ update_path =>
           for_steps env fuel 1 (length update_path) update_path
             {| compose := file; log := [] |} = Some (x, m')
       end.
Proof.
  unfold run_update_process.
  destruct (fetch_nextcloud_fpm_versions (hub env)) as [available|]; [|done].
  simpl. intros Hrun. exists available. split; [done|].
  destruct (plan_update _ _ _) as [| | |choices [|v rest]]; by simplify_eq.
Qed.

(** X8.  When [run_update_process] ends because the containers of step
    [k] could not be stopped, the last thing it did is that
    [docker-compose down]; the steps before [k] are declared completed,
    in the order of the update path, and no other; and the compose file
    is the one those steps left: step [k] has written nothing. *)
Theorem stop_failure_leaves_file (env : environment) (fuel : nat) (file : compose_file)
    (k : nat) (m' : machine) :
  run_update_process env fuel file = Some (StopFailed k, m') ->
  exists available choices update_path,
    fetch_nextcloud_fpm_versions (hub env) = Some available
    /\ plan_update (installed_version env) available (mode env) = Plan choices update_path
    /\ 1 <= k <= length update_path
    /\ check_call (compose_down env k) = CalledProcessError
    /\ last (log m') = Some ComposeDown
    /\ compose m' = after_steps (take (k - 1) update_path) file
    /\ completed_steps (log m') = zip (seq 1 (k - 1)) (take (k - 1) update_path).
Proof.
  intros (available & Havail & Hplan)%run_cases. exists available.
  destruct (plan_update _ _ _) as [| | |choices update_path]; [by destruct Hplan..|].
  assert (for_steps env fuel 1 (length update_path) update_path
            {| compose := file; log := [] |} = Some (StopFailed k, m')) as Hsteps
    by (destruct update_path; [by destruct Hplan|done]).
  apply for_steps_StopFailed in Hsteps
    as (Hk & Hdown & Hlast & Hfile & events & Hlog & Hcompl).
  simpl in *. subst events.
  exists choices, update_path. split_and!; try done; lia.
Qed.

(** X9.  When the step loop of [run_update_process] runs to its end,
    every version of the update path is declared completed, once and in
    the order of the path, with step numbers 1, 2, ...; the compose
    file is the one the steps left in that order, and the image of the
    application server and of the cron service, where the file had the
    service, names the last version of the path. *)
Theorem completed_run_reaches_last_version (env : environment) (fuel : nat)
    (file : compose_file) (m' : machine) :
  run_update_process env fuel file = Some (Completed, m') ->
  exists available choices update_path v,
    fetch_nextcloud_fpm_versions (hub env) = Some available
    /\ plan_update (installed_version env) available (mode env) = Plan choices update_path
    /\ last update_path = Some v
    /\ completed_steps (log m') = zip (seq 1 (length update_path)) update_path
    /\ compose m' = after_steps update_path file
    /\ (has_service "nextcloud-fpm" file ->
        service_image "nextcloud-fpm" (compose m') = Some (YStr ("nextcloud:" +:+ v)))
    /\ (has_service "nextcloud-cron" file ->
        service_image "nextcloud-cron" (compose m') = Some (YStr ("nextcloud:" +:+ v))).
Proof.
  intros (available & Havail & Hplan)%run_cases. exists available.
  destruct (plan_update _ _ _) as [| | |choices update_path]; [by destruct Hplan..|].
  destruct update_path as [|v0 rest] eqn:Hpath; [by destruct Hplan|].
  rewrite <-Hpath in *.
  assert (is_Some (last update_path)) as [v Hv]
    by (subst update_path; apply last_is_Some; done).
  apply for_steps_Completed in Hplan as (Hfile & events & Hlog & Hcompl).
  simpl in *. subst events.
  exists choices, update_path, v. split_and!; try done.
  - rewrite Hfile. by apply service_image_after_steps.
  - rewrite Hfile. by apply service_image_after_steps.
Qed.

(** X10.  When no container of the application server is found after
    the start ([get_container_id] returns [None]), the step runs no
    [occ] command, reports the missing container, is still declared
    completed, has written the new image as usual, and the loop goes on
    with the next version. *)
Theorem missing_container_skips_maintenance (env : environment) (fuel : nat) (i n : nat)
    (v : string) (rest : list string) (m : machine) (polls : list event) :
  check_call (compose_down env i) = Done ->
  check_call (compose_up env i) = Done ->
  wait_for_nextcloud_status fuel (status_php env i) 0 = Some polls ->
  fpm_container env i = None ->
  exists events m',
    upgrade_step env fuel i n v m = Some (None, m')
    /\ log m' = log m ++ events ++ [ContainerNotFound; StepCompleted i v]
    /\ (forall c, Occ c ∉ events)
    /\ compose m' = after_updates v (compose m)
    /\ for_steps env fuel i n (v :: rest) m = for_steps env fuel (S i) n rest m'.
Proof.
  intros Hdown Hup Hwait Hcid.
  destruct (update_image_log v "nextcloud-fpm"
              (emit [Sleep 30] (emit [StepRule i n v; ComposeDown] m))) as (e1 & He1 & Hk1).
  destruct (update_image_log v "nextcloud-cron"
              (update_image v "nextcloud-fpm"
                 (emit [Sleep 30] (emit [StepRule i n v; ComposeDown] m)))) as (e2 & He2 & Hk2).
  exists ([StepRule i n v; ComposeDown; Sleep 30; e1; e2; ComposeUp; Sleep 60] ++ polls).
  simpl. unfold upgrade_step. rewrite Hdown, Hup, Hwait. simpl. rewrite Hcid.
  eexists. split; [done|]. split_and!.
  - simpl. rewrite He2, He1. simpl. by rewrite <-!app_assoc.
  - intros c Hc. apply wait_for_nextcloud_status_polls in Hwait as [_ Hpolls].
    rewrite Forall_forall in Hpolls.
    rewrite !elem_of_cons in Hc.
    destruct Hc as [?|[?|[?|[Hc|[Hc|[?|[?|Hc]]]]]]]; try done.
    + by destruct Hk1 as [-> | ->].
    + by destruct Hk2 as [-> | ->].
    + by destruct (Hpolls _ Hc).
  - simpl. unfold after_updates. by rewrite !update_image_compose.
  - done.
Qed.

Lemma newer_versions_total installed available update_path :
  Forall (fun t => is_Some (parse_core t)) available ->
  is_Some (parse_core installed) ->
  exists out, newer_versions installed available update_path = Ok out.
Proof.
  intros Hall [b Hb]. revert update_path.
  induction Hall as [|version rest [a Ha] _ IH]; intros update_path; simpl; [by eexists|].
  rewrite Ha, Hb. apply IH.
Qed.

(** X11.  When the installed version parses and no catalogue entry is
    higher, [run_update_process] ends with "No newer version available
    for update." before the operator is asked anything: no container is
    stopped and the compose file is not touched. *)
Theorem nothing_newer_nothing_done (env : environment) (fuel : nat) (file : compose_file)
    (available : list string) (vi : V) :
  fetch_nextcloud_fpm_versions (hub env) = Some available ->
  parse_core (installed_version env) = Some vi ->
  (forall t vt, t ∈ available -> parse_core t = Some vt -> version_lt vi vt = false) ->
  run_update_process env fuel file
  = Some (NoNewerVersion, {| compose := file; log := [] |}).
Proof.
  intros Havail Hvi Hnone. unfold run_update_process. rewrite Havail. simpl.
  apply fetch_fpm_catalogue in Havail as [Hparse _].
  destruct (newer_versions_total (installed_version env) available [] Hparse)
    as [out Hout]; [by eexists|].
  unfold plan_update. rewrite Hout.
  apply newer_versions_Ok in Hout as (new & -> & _ & Hin). simpl.
  destruct new as [|t new']; [done|].
  destruct (proj1 (Hin t) ltac:(by left)) as [Ht (ki & kt & Hki & Hkt & Hlt)].
  assert (ki = vi) as -> by congruence.
  by rewrite (Hnone _ _ Ht Hkt) in Hlt.
Qed.

(** X12.  [wait_for_nextcloud_status], allowed [fuel] requests,
    returns exactly when one of them is answered as ready (installed,
    not in maintenance, no database upgrade needed), and it returns at
    the first such answer: every request before it was followed by a
    pause of 30 seconds, the last one by none.  A request that raises
    counts as not ready. *)
Theorem wait_returns_at_first_ready_answer (fuel : nat) (status : nat -> option string)
    (attempt : nat) (polls : list event) :
  wait_for_nextcloud_status fuel status attempt = Some polls <->
  exists failed,
    failed < fuel
    /\ status_ready (status (attempt + failed)) = true
    /\ (forall j, j < failed -> status_ready (status (attempt + j)) = false)
    /\ polls = polls_until_ready failed.
Proof.
  revert attempt polls. induction fuel as [|fuel IH]; intros attempt polls; simpl.
  - split; [done|]. intros (failed & ? & _). lia.
  - destruct (status_ready (status attempt)) eqn:Hready.
    + split.
      * intros [= <-]. exists 0. rewrite Nat.add_0_r. split_and!; [lia|done| |done].
        intros j ?. lia.
      * intros (failed & _ & Hr & Hbefore & ->).
        destruct failed as [|failed]; [done|].
        specialize (Hbefore 0 ltac:(lia)). rewrite Nat.add_0_r in Hbefore. congruence.
    + split.
      * destruct (wait_for_nextcloud_status fuel status (S attempt)) as [rest|] eqn:Hrest;
          simpl; [|done].
        intros [= <-]. apply IH in Hrest as (failed & Hlt & Hr & Hbefore & ->).
        exists (S failed). split_and!; [lia| | |done].
        -- by replace (attempt + S failed) with (S attempt + failed) by lia.
        -- intros [|j] Hj; [by rewrite Nat.add_0_r|].
           replace (attempt + S j) with (S attempt + j) by lia. apply Hbefore. lia.
      * intros (failed & Hlt & Hr & Hbefore & ->).
        destruct failed as [|failed]; [rewrite Nat.add_0_r in Hr; congruence|].
        assert (wait_for_nextcloud_status fuel status (S attempt)
                = Some (polls_until_ready failed)) as ->; [|done].
        apply IH. exists failed. split_and!; [lia| | |done].
        -- by replace (S attempt + failed) with (attempt + S failed) by lia.
        -- intros j Hj. replace (S attempt + j) with (attempt + S j) by lia.
           apply Hbefore. lia.
Qed.

(** X13.  Whatever way [run_update_process] ends, every version it
    has written to the compose file is an entry of the catalogue that
    is higher than the installed version and, when a target was chosen,
    not higher than the target. *)
Theorem run_writes_only_planned_versions (env : environment) (fuel : nat)
    (file : compose_file) (x : exit) (m' : machine) (s w : string) :
  run_update_process env fuel file = Some (x, m') ->
  ImageUpdated s w ∈ log m' ->
  exists available,
    fetch_nextcloud_fpm_versions (hub env) = Some available
    /\ w ∈ available
    /\ key_lt parse_core (installed_version env) w
    /\ match mode env with
       | Latest => True
       | Specific target => key_le parse_core w target
       end.
Proof.
  intros (available & Havail & Hplan)%run_cases Hw. exists available. split; [done|].
  destruct (plan_update _ _ _) as [| | |choices update_path] eqn:Hp;
    try (destruct Hplan as [_ ->]; by apply elem_of_nil in Hw).
  assert (w ∈ update_path) as Hin.
  { destruct update_path as [|v0 rest];
      [destruct Hplan as [_ ->]; by apply elem_of_nil in Hw|].
    apply for_steps_images in Hplan as (events & Hlog & Hev).
    simpl in Hlog. subst events. by eapply Hev. }
  apply fetch_fpm_catalogue in Havail as [_ Hnd].
  apply plan_update_Plan in Hp as (_ & Hchoices & _ & Hpath); [|done].
  apply Hpath in Hin as [Hc Hmode]. apply Hchoices in Hc as [? ?]. by split_and!.
Qed.
End run_more.

(** ** Running containers *)

Section container_more.

Lemma string_app_cons a s t : String a s +:+ t = String a (s +:+ t).
Proof. done. Qed.

Lemma string_app_nil_r s : s +:+ EmptyString = s.
Proof. induction s as [|a s IH]; [done|]. by rewrite string_app_cons, IH. Qed.

Lemma string_app_snoc s a t : (s +:+ String a EmptyString) +:+ t = s +:+ String a t.
Proof. induction s as [|b s IH]; [done|]. by rewrite !string_app_cons, IH. Qed.

Lemma has_char_app c s t : has_char c (s +:+ t) = has_char c s || has_char c t.
Proof.
  induction s as [|a s IH]; [done|]. rewrite string_app_cons. simpl.
  by rewrite IH, orb_assoc.
Qed.

Lemma last_field_from_no_sep sep field s :
  has_char sep s = false -> last_field_from sep field s = field +:+ s.
Proof.
  revert field. induction s as [|a s IH]; intros field; simpl.
  - by rewrite string_app_nil_r.
  - destruct (Ascii.eqb a sep); [done|]. simpl. intros Hs.
    by rewrite IH, string_app_snoc.
Qed.

Lemma last_field_from_sep sep field s t :
  last_field_from sep field (s +:+ String sep t) = last_field_from sep EmptyString t.
Proof.
  revert field. induction s as [|a s IH]; intros field.
  - change (EmptyString +:+ String sep t) with (String sep t). simpl.
    by rewrite Ascii.eqb_refl.
  - rewrite string_app_cons. simpl. by destruct (Ascii.eqb a sep).
Qed.

Lemma last_field_from_has_char sep field s :
  has_char sep field = false -> has_char sep (last_field_from sep field s) = false.
Proof.
  revert field. induction s as [|a s IH]; intros field Hfield; simpl; [done|].
  destruct (Ascii.eqb a sep) eqn:Ha; [by apply IH|]. apply IH.
  rewrite has_char_app, Hfield. simpl. by rewrite Ha.
Qed.

Lemma first_container_None service_substring containers :
  first_container service_substring containers = None
  <-> Forall (fun c => Py.contains service_substring (container_name c) = false)
        containers.
Proof.
  induction containers as [|c rest IH]; simpl; [by split; [constructor|]|].
  destruct (Py.contains service_substring (container_name c)) eqn:Hc.
  - split; [done|]. intros Hall. inversion Hall; subst. congruence.
  - rewrite IH. split; [by constructor|]. intros Hall. by inversion Hall.
Qed.

Lemma first_container_Some service_substring containers c :
  first_container service_substring containers = Some c ->
  exists before after,
    containers = before ++ c :: after
    /\ Forall (fun c' => Py.contains service_substring (container_name c') = false) before
    /\ Py.contains service_substring (container_name c) = true.
Proof.
  induction containers as [|c0 rest IH]; simpl; [done|].
  destruct (Py.contains service_substring (container_name c0)) eqn:Hc0.
  - intros [= <-]. exists [], rest. by split_and!; [|constructor|].
  - intros (before & after & -> & Hbefore & Hc)%IH.
    exists (c0 :: before), after. by split_and!; [|constructor|].
Qed.

(** X14.  The version [detect_version] reports never contains a colon:
    it is what follows the last colon of the image reference, so the
    registry host, a port and the repository are all dropped.  When the
    container listing fails or no container name contains the substring
    asked for, the version reported is "unknown". *)
Theorem detect_version_has_no_colon (docker : result (list container))
    (service_substring : string) :
  has_char colon (detect_version docker service_substring) = false
  /\ ((forall containers, docker = Ok containers ->
         first_container service_substring containers = None) ->
      detect_version docker service_substring = "unknown").
Proof.
  unfold detect_version. split.
  - destruct docker as [containers|]; [|done].
    destruct (first_container _ _); [|done]. by apply last_field_from_has_char.
  - intros Hnone. destruct docker as [containers|]; [|done]. by rewrite Hnone.
Qed.

(** X15.  Round trip between the compose file and a running container:
    when the container [detect_version] finds runs the image that
    [update_docker_compose_images] has written for a version without a
    colon, [detect_version] reports that version. *)
Theorem detect_version_reads_written_tag (containers : list container) (c : container)
    (service_substring service new_version : string) (file : compose_file) :
  first_container service_substring containers = Some c ->
  has_char colon new_version = false ->
  has_service service file ->
  service_image service (update_docker_compose_images new_version service file).1
  = Some (YStr (container_image c)) ->
  detect_version (Ok containers) service_substring = new_version.
Proof.
  intros Hc Hcolon Hs. rewrite service_image_update by done. intros [= Himage].
  unfold detect_version. rewrite Hc, <-Himage. unfold last_field.
  change ("nextcloud:" +:+ new_version)
    with ("nextcloud" +:+ String colon new_version).
  rewrite last_field_from_sep. by rewrite last_field_from_no_sep.
Qed.

(** X16.  [get_container_id] returns [None] exactly when no container
    name contains the substring asked for.  Otherwise it returns the id
    of the first container of the listing whose name contains it, and
    [detect_version] reads the image of that same container. *)
Theorem get_container_id_first_match (containers : list container)
    (service_substring : string) :
  (get_container_id (Ok containers) service_substring = None
   <-> Forall (fun c => Py.contains service_substring (container_name c) = false)
         containers)
  /\ forall id, get_container_id (Ok containers) service_substring = Some id ->
       exists before c after,
         containers = before ++ c :: after
         /\ Forall (fun c' => Py.contains service_substring (container_name c') = false)
              before
         /\ Py.contains service_substring (container_name c) = true
         /\ id = container_id c
         /\ detect_version (Ok containers) service_substring
            = last_field colon (container_image c).
Proof.
  unfold get_container_id, detect_version. split.
  - rewrite <-first_container_None.
    by destruct (first_container service_substring containers).
  - intros id. destruct (first_container service_substring containers) as [c|] eqn:Hc;
      [|done].
    intros [= <-]. apply first_container_Some in Hc as (before & after & ? & ? & ?).
    by exists before, c, after.
Qed.

End container_more.

(** ** The additional services *)

Section additional_more.
Context `{PackagingVersion V} `{SetOrder}.

(** X17.  When the version of the running container does not parse
    (for example "unknown", because no container was found, or
    "latest") and the registry offers at least one version,
    [update_additional_container] is left by an [InvalidVersion]
    exception that nothing catches; the compose file is untouched. *)
Theorem additional_update_with_unparsed_version (service_key docker_repo : string)
    (docker : result (list container)) (hub : registry) (confirm : bool) (up : process)
    (file : compose_file) (p : nat) (all_versions : list string) :
  paging_semver hub docker_repo default_filter = Some (Ok (p, all_versions)) ->
  all_versions <> [] ->
  Version (detect_version docker ("nextcloud-" +:+ service_key)) = None ->
  update_additional_container service_key docker_repo docker hub confirm up file
  = Some (AdditionalUncaught InvalidVersion, file).
Proof.
  intros Hpaging Hne Hcurrent. unfold update_additional_container.
  pose proof (fetch_semver_outcome hub docker_repo 10 default_filter) as Hout.
  rewrite Hpaging in Hout. destruct Hout as (L & HL & Hcat & _).
  destruct (fetch_semver_select _ _ _ _ _ _ _ Hpaging HL) as [Hsel _].
  rewrite HL. simpl. f_equal.
  pose proof (select_majors_nonempty _ _ _ _ Hsel Hne).
  destruct L as [|latest L']; [done|]. rewrite Hcurrent.
  by destruct (Version latest).
Qed.

(** X18.  [update_additional_container] changes the compose file only
    when the operator confirmed and the first version the registry
    offers is strictly higher than the running one: it never
    downgrades.  The file is then the one
    [update_docker_compose_images] leaves, whether or not the service
    could be started afterwards; where the file has the service, its
    image becomes ["nextcloud:<version>"], whatever the service is. *)
Theorem additional_update_only_upgrades (service_key docker_repo : string)
    (docker : result (list container)) (hub : registry) (confirm : bool) (up : process)
    (file file' : compose_file) (x : additional_exit) :
  update_additional_container service_key docker_repo docker hub confirm up file
  = Some (x, file') ->
  file' <> file ->
  exists latest_version versions,
    fetch_semver_versions hub docker_repo 10 default_filter
    = Some (latest_version :: versions)
    /\ confirm = true
    /\ key_lt Version (detect_version docker ("nextcloud-" +:+ service_key)) latest_version
    /\ file' = (update_docker_compose_images latest_version
                  ("nextcloud-" +:+ service_key) file).1
    /\ (has_service ("nextcloud-" +:+ service_key) file ->
        service_image ("nextcloud-" +:+ service_key) file'
        = Some (YStr ("nextcloud:" +:+ latest_version))).
Proof.
  unfold update_additional_container.
  destruct (fetch_semver_versions hub docker_repo 10 default_filter)
    as [[|latest_version versions]|]; simpl; [by intros [= <- <-]| |done].
  destruct (Version latest_version) as [latest|] eqn:Hlatest; [|by intros [= <- <-]].
  destruct (Version (detect_version _ _)) as [installed|] eqn:Hinstalled;
    [|by intros [= <- <-]].
  unfold version_le. destruct (version_lt installed latest) eqn:Hlt; simpl;
    [|by intros [= <- <-]].
  destruct confirm; [|by intros [= <- <-]].
  intros Hx Hfile. exists latest_version, versions.
  assert (file' = (update_docker_compose_images latest_version
                     ("nextcloud-" +:+ service_key) file).1) as ->
    by (destruct (check_call up); by simplify_eq).
  split_and!; [done..|by exists installed, latest|done|].
  intros Hs. by apply service_image_update.
Qed.

End additional_more.

(** ** The compose document of an installation *)

Section build_more.
Context `{PackagingVersion V} `{SetOrder}.

(** The document that [build_compose_services] returns. *)
Lemma build_compose_services_Ok s hub a http https env_file base_path d :
  build_compose_services s hub a http https env_file base_path = Some (Ok d) ->
  exists fpm_tags pg redis nginx (fpm : option string),
    (if install_nextcloud s then fetch_nextcloud_fpm_versions hub else Some [])
    = Some fpm_tags
    /\ (if install_nextcloud s then
          exists version,
            choose_fpm_version fpm_tags (select_nextcloud a) (chosen_nextcloud a)
            = Ok version
            /\ fpm = Some version
        else fpm = nc_fpm_version s)
    /\ d = dict [("services",
          YMap (<["nextcloud-cron" := cron_service fpm base_path]>
            (set_if (install_nginx s) "nextcloud-nginx"
               (nginx_service s nginx http https env_file base_path)
               (set_if (install_nextcloud s) "nextcloud-fpm"
                  (nc_service s (py_format fpm) env_file base_path)
                  (set_if (install_redis s) "nextcloud-redis"
                     (redis_service redis env_file base_path)
                     (set_if (install_postgres s) "nextcloud-postgres"
                        (postgres_service pg env_file base_path) ∅))))))].
Proof.
  unfold build_compose_services, and_then.
  destruct (install_postgres s), (install_redis s), (install_nextcloud s),
    (install_nginx s); simpl;
    repeat match goal with
      | |- context [fetch_semver_versions ?h ?r ?m ?f] =>
          destruct (fetch_semver_versions h r m f) eqn:?; simpl; [|done]
      | |- context [fetch_nextcloud_fpm_versions ?h] =>
          destruct (fetch_nextcloud_fpm_versions h) eqn:?; simpl; [|done]
      | |- context [choose_version ?vs ?sel ?ch] =>
          destruct (choose_version vs sel ch) eqn:?; simpl; [|done]
      | |- context [choose_fpm_version ?vs ?sel ?ch] =>
          destruct (choose_fpm_version vs sel ch) eqn:?; simpl; [|done]
      end;
    intros [= <-]; eexists _, _, _, _, _;
    (split; [reflexivity|]); (split; [by eauto|reflexivity]).
  Unshelve. all: exact EmptyString.
Qed.

Lemma service_entry_dict (services : gmap string yaml) name :
  service_entry name (dict [("services", YMap services)]) = services !! name.
Proof.
  unfold service_entry, compose_services, dict. simpl. by rewrite lookup_insert_eq.
Qed.

Lemma set_if_is_Some cond key value (d : gmap string yaml) name :
  is_Some (set_if cond key value d !! name)
  <-> (cond = true /\ name = key) \/ is_Some (d !! name).
Proof.
  unfold set_if. destruct cond.
  - rewrite lookup_insert_is_Some. split.
    + intros [<-|[_ ?]]; [by left|by right].
    + intros [[_ ->]|?]; [by left|].
      destruct (decide (key = name)); [by left|by right].
  - split; [by right|]. by intros [[? _]|?].
Qed.

Lemma set_if_Forall cond key value (d : gmap string yaml) :
  is_mapping value = true ->
  map_Forall (fun _ entry => is_mapping entry = true) d ->
  map_Forall (fun _ entry => is_mapping entry = true) (set_if cond key value d).
Proof. intros ??. unfold set_if. destruct cond; [by apply map_Forall_insert_2|done]. Qed.

(** The images of the application server and of the cron service. *)
Lemma built_document_images s hub a http https env_file base_path d :
  install_nextcloud s = true ->
  build_compose_services s hub a http https env_file base_path = Some (Ok d) ->
  exists fpm_tags version fpm_entry cron_entry,
    fetch_nextcloud_fpm_versions hub = Some fpm_tags
    /\ choose_fpm_version fpm_tags (select_nextcloud a) (chosen_nextcloud a) = Ok version
    /\ service_entry "nextcloud-fpm" d = Some (YMap fpm_entry)
    /\ fpm_entry !! "image" = Some (YStr ("nextcloud:" +:+ version))
    /\ service_entry "nextcloud-cron" d = Some (YMap cron_entry)
    /\ cron_entry !! "image" = Some (YStr ("nextcloud:" +:+ version)).
Proof.
  intros Hinstall
    (fpm_tags & pg & redis & nginx & fpm & Hfetch & Hfpm & ->)%build_compose_services_Ok.
  rewrite Hinstall in *. destruct Hfpm as (version & Hversion & ->).
  exists fpm_tags, version. eexists _, _. split_and!; [done..| | | |].
  - rewrite service_entry_dict, lookup_insert_ne by done.
    unfold set_if at 1. destruct (install_nginx s);
      [rewrite lookup_insert_ne by done|]; simpl; by rewrite lookup_insert_eq.
  - by rewrite lookup_insert_ne.
  - by rewrite service_entry_dict, lookup_insert_eq.
  - done.
Qed.

(** X19.  The document [build_compose_services] returns is well
    formed, and its services are the cron service, always, and the
    services the settings ask for, under the names
    "nextcloud-postgres", "nextcloud-redis", "nextcloud-fpm" and
    "nextcloud-nginx"; there is no other.  These are the names under
    which the update functions look the services up. *)
Theorem built_document_services (s : settings) (hub : registry) (a : answers)
    (nginx_http_port nginx_https_port env_file base_path : string) (d : yaml) :
  build_compose_services s hub a nginx_http_port nginx_https_port env_file base_path
  = Some (Ok d) ->
  well_formed d
  /\ forall name,
       is_Some (service_entry name d) <->
       name = "nextcloud-cron"
       \/ (install_nginx s = true /\ name = "nextcloud-nginx")
       \/ (install_nextcloud s = true /\ name = "nextcloud-fpm")
       \/ (install_redis s = true /\ name = "nextcloud-redis")
       \/ (install_postgres s = true /\ name = "nextcloud-postgres").
Proof.
  intros (fpm_tags & pg & redis & nginx & fpm & _ & _ & ->)%build_compose_services_Ok.
  split.
  - eexists. split; [unfold compose_services, dict; simpl; by rewrite lookup_insert_eq|].
    apply map_Forall_insert_2; [done|].
    repeat (apply set_if_Forall; [done|]). apply map_Forall_empty.
  - intros name. rewrite service_entry_dict, lookup_insert_is_Some.
    rewrite !set_if_is_Some, lookup_empty.
    pose proof (@is_Some_None yaml) as Hnone.
    destruct (decide ("nextcloud-cron" = name)) as [<-|Hname]; [by split; left|].
    split.
    + intros [?|[_ Hrest]]; [done|]. right. tauto.
    + intros [->|Hrest]; [done|]. right. split; [done|]. tauto.
Qed.

(** X20.  In the document of an installation the cron service runs the
    image of the application server: both are ["nextcloud:<version>"]
    for the same version.  That version is "unknown" when the registry
    gave no tag, the first tag of the catalogue when the operator does
    not select one, and the operator's choice otherwise. *)
Theorem cron_follows_nextcloud_version (s : settings) (hub : registry) (a : answers)
    (nginx_http_port nginx_https_port env_file base_path : string) (d : yaml) :
  install_nextcloud s = true ->
  build_compose_services s hub a nginx_http_port nginx_https_port env_file base_path
  = Some (Ok d) ->
  exists fpm_tags version,
    fetch_nextcloud_fpm_versions hub = Some fpm_tags
    /\ service_field "nextcloud-fpm" "image" d = Some (YStr ("nextcloud:" +:+ version))
    /\ service_field "nextcloud-cron" "image" d = Some (YStr ("nextcloud:" +:+ version))
    /\ (fpm_tags = [] -> version = "unknown")
    /\ (select_nextcloud a = false -> version = first_or_unknown fpm_tags)
    /\ (select_nextcloud a = true -> fpm_tags <> [] -> chosen_nextcloud a = Ok version).
Proof.
  intros Hinstall (fpm_tags & version & fpm_entry & cron_entry & Hfetch & Hversion
                   & Hfpm & Himage & Hcron & Hcimage)%built_document_images; [|done].
  exists fpm_tags, version. unfold service_field. rewrite Hfpm, Hcron.
  split_and!; [done..| | |].
  - intros ->. unfold choose_fpm_version in Hversion.
    destruct (select_nextcloud a); by simplify_eq.
  - intros Hsel. unfold choose_fpm_version in Hversion. rewrite Hsel in Hversion.
    by simplify_eq.
  - intros Hsel Hne. unfold choose_fpm_version in Hversion. rewrite Hsel in Hversion.
    by destruct fpm_tags.
Qed.

(** X21.  Installation and update fit together: on the document that
    [build_compose_services] returns, the two image updates of an
    upgrade step for version [v] find their services; afterwards the
    application server and the cron service both have the image
    ["nextcloud:<v>"] and the entry of every other service is as it
    was built. *)
Theorem steps_update_built_document (s : settings) (hub : registry) (a : answers)
    (nginx_http_port nginx_https_port env_file base_path : string) (d : yaml)
    (v : string) :
  install_nextcloud s = true ->
  build_compose_services s hub a nginx_http_port nginx_https_port env_file base_path
  = Some (Ok d) ->
  service_image "nextcloud-fpm" (after_updates v (Some d))
  = Some (YStr ("nextcloud:" +:+ v))
  /\ service_image "nextcloud-cron" (after_updates v (Some d))
     = Some (YStr ("nextcloud:" +:+ v))
  /\ forall name, name <> "nextcloud-fpm" -> name <> "nextcloud-cron" ->
       service_entry name <$> after_updates v (Some d) = Some (service_entry name d).
Proof.
  intros Hinstall (fpm_tags & version & fpm_entry & cron_entry & _ & _
                   & Hfpm & _ & Hcron & _)%built_document_images; [|done].
  assert (has_service "nextcloud-fpm" (Some d)) by by eexists _, _.
  assert (has_service "nextcloud-cron" (Some d)) by by eexists _, _.
  split_and!; [by apply service_image_after_updates..|].
  intros name Hf Hc. unfold after_updates. by rewrite !update_other_entry.
Qed.

End build_more.

(** ** The whole update *)



Section update_more.
Context `{PackagingVersion V} `{SetOrder}.












End update_more.

(** ** The further properties on concrete inputs *)

(** Two pages of Nextcloud tags: the first entry returned is the
    highest tag collected. *)
Lemma fetch_first_is_latest_witness :
  headed_by_highest parse_core
    ["29.0.4-fpm"; "29-fpm"; "28.0.8-fpm"; "27.1.11-fpm"; "28.0.8-fpm"; "28.0.9-fpm"]
    ["29.0.4-fpm"; "28.0.9-fpm"; "27.1.11-fpm"].
Proof.
  destruct (fetch_first_is_latest hub_two_pages) as [Hfpm _].
  apply (Hfpm 2); [reflexivity|reflexivity|done].
Defined.

(** [max_count = 0]: one tag. *)
Lemma fetch_semver_max_count_below_one_witness :
  exists t, fetch_semver_versions hub_library POSTGRES_REPO 0 default_filter = Some [t].
Proof.
  edestruct (fetch_semver_max_count_below_one hub_library POSTGRES_REPO 0 default_filter)
    as (t & vt & Ht & _); [lia|reflexivity|done|].
  by exists t.
Defined.

(** Three majors collected and room for two: major 14 is left out. *)
Lemma fetch_leaves_out_lower_majors_witness :
  left_out_below Version 2 ["16.2"; "16.3"; "15.7"; "14.12"] ["16.3"; "15.7"].
Proof.
  destruct (fetch_leaves_out_lower_majors hub_library) as [_ Hsemver].
  apply (Hsemver POSTGRES_REPO 2%Z default_filter 1); reflexivity.
Defined.

(** The loop is left at page 2 and has read both pages. *)
Lemma paging_collects_pages_in_order_witness :
  ["29.0.4-fpm"; "29-fpm"; "28.0.8-fpm"; "27.1.11-fpm"; "28.0.8-fpm"; "28.0.9-fpm"]
  = pages_tags keep_fpm (hub_two_pages NEXTCLOUD_REPO) 1 1
  \/ ["29.0.4-fpm"; "29-fpm"; "28.0.8-fpm"; "27.1.11-fpm"; "28.0.8-fpm"; "28.0.9-fpm"]
     = pages_tags keep_fpm (hub_two_pages NEXTCLOUD_REPO) 1 2.
Proof.
  destruct (paging_collects_pages_in_order hub_two_pages) as [Hfpm _].
  edestruct (Hfpm 2) as [_ Hall]; [reflexivity|]. exact Hall.
Defined.


(** The example document after an update is a well-formed document. *)
Lemma update_keeps_shape_witness :
  exists d',
    (update_docker_compose_images "21-fpm" "nextcloud-fpm" (Some example_compose)).1
    = Some d'
    /\ well_formed d'.
Proof.
  destruct (update_keeps_shape "21-fpm" "nextcloud-fpm" (Some example_compose))
    as [_ Hshape].
  destruct (Hshape example_compose eq_refl) as (d' & Hd' & Hwf & _).
  exists d'. split; [exact Hd'|]. apply Hwf, example_compose_well_formed.
Defined.

(** Three steps planned, the containers of the second one cannot be
    stopped: the file is the one the first step left. *)
Lemma stop_failure_leaves_file_witness :
  exists m',
    run_update_process env_stop_fails 2 (Some example_compose) = Some (StopFailed 2, m')
    /\ last (log m') = Some ComposeDown
    /\ compose m' = after_steps ["19-fpm"] (Some example_compose)
    /\ completed_steps (log m') = [(1, "19-fpm")].
Proof.
  eexists. split; [by vm_compute|].
  edestruct (stop_failure_leaves_file env_stop_fails 2 (Some example_compose) 2)
    as (available & choices & update_path & Havail & Hplan & _ & _ & Hlast & Hfile
        & Hcompl); [by vm_compute|].
  injection Havail as <-. injection Hplan as <- <-.
  split_and!; [exact Hlast|exact Hfile|exact Hcompl].
Defined.

(** Two steps, to the target 20. *)
Lemma completed_run_reaches_last_version_witness :
  exists m',
    run_update_process env_fine 2 (Some example_compose) = Some (Completed, m')
    /\ completed_steps (log m') = [(1, "19-fpm"); (2, "20-fpm")]
    /\ service_image "nextcloud-fpm" (compose m') = Some (YStr "nextcloud:20-fpm").
Proof.
  eexists. split; [by vm_compute|].
  edestruct (completed_run_reaches_last_version env_fine 2 (Some example_compose))
    as (available & choices & update_path & v & Havail & Hplan & Hv & Hcompl & _
        & Hfpm & _); [by vm_compute|].
  injection Havail as <-. injection Hplan as <- <-. injection Hv as <-.
  split; [exact Hcompl|]. apply Hfpm. by eexists _, _.
Defined.

(** No container is found after the start. *)
Lemma missing_container_skips_maintenance_witness :
  exists events m',
    upgrade_step env_no_container 1 1 1 "21-fpm" {| compose := None; log := [] |}
    = Some (None, m')
    /\ log m' = events ++ [ContainerNotFound; StepCompleted 1 "21-fpm"]
    /\ forall c, Occ c ∉ events.
Proof.
  edestruct (missing_container_skips_maintenance env_no_container 1 1 1 "21-fpm" []
               {| compose := None; log := [] |} [StatusRequest])
    as (events & m' & Hstep & Hlog & Hocc & _); [reflexivity..|].
  exists events, m'. split_and!; [exact Hstep|exact Hlog|exact Hocc].
Defined.

(** Version 21 is installed and is the highest on offer. *)
Lemma nothing_newer_nothing_done_witness :
  run_update_process env_up_to_date 1 (Some example_compose)
  = Some (NoNewerVersion, {| compose := Some example_compose; log := [] |}).
Proof.
  apply (nothing_newer_nothing_done env_up_to_date 1 (Some example_compose)
           ["21-fpm"; "20-fpm"; "19-fpm"; "18-fpm"] [21]); [reflexivity|reflexivity|].
  intros t vt Ht Hvt.
  repeat (apply elem_of_cons in Ht as [->|Ht]); [..|by apply elem_of_nil in Ht];
    vm_compute in Hvt; by injection Hvt as <-.
Defined.

(** The first request is not answered, the second one is, as ready. *)
Lemma wait_returns_at_first_ready_answer_witness :
  wait_for_nextcloud_status 2 (status_php env_fine 1) 0 = Some (polls_until_ready 1).
Proof.
  apply wait_returns_at_first_ready_answer. exists 1.
  split_and!; [lia|reflexivity| |reflexivity].
  intros [|j] Hj; [reflexivity|lia].
Defined.

(** Version 18 installed, target 20: version 19 is written. *)
Lemma run_writes_only_planned_versions_witness :
  key_lt parse_core "18-fpm" "19-fpm" /\ key_le parse_core "19-fpm" "20-fpm".
Proof.
  assert (exists x m',
            run_update_process env_fine 2 (Some example_compose) = Some (x, m')
            /\ ImageUpdated "nextcloud-fpm" "19-fpm" ∈ log m') as (x & m' & Hrun & Hin).
  { eexists _, _. split; [by vm_compute|]. cbn [log]. by repeat constructor. }
  destruct (run_writes_only_planned_versions env_fine 2 (Some example_compose) x m'
              "nextcloud-fpm" "19-fpm" Hrun Hin) as (available & _ & _ & Hlt & Hle).
  by split.
Defined.

(** No container of the installation is named after Redis. *)
Lemma detect_version_has_no_colon_witness :
  detect_version (Ok running_containers) "nextcloud-redis" = "unknown".
Proof.
  destruct (detect_version_has_no_colon (Ok running_containers) "nextcloud-redis")
    as [_ Hunknown].
  apply Hunknown. by intros containers [= <-].
Defined.

(** The application server runs the image written for version 21. *)
Lemma detect_version_reads_written_tag_witness :
  detect_version (Ok running_containers) "nextcloud-fpm" = "21-fpm".
Proof.
  apply (detect_version_reads_written_tag running_containers fpm_container_21
           "nextcloud-fpm" "nextcloud-fpm" "21-fpm" (Some example_compose));
    [reflexivity|reflexivity|by eexists _, _|reflexivity].
Defined.

(** The application server is the second container of the listing. *)
Lemma get_container_id_first_match_witness :
  exists before c after,
    running_containers = before ++ c :: after
    /\ length before = 1
    /\ container_id c = "4f1d".
Proof.
  destruct (get_container_id_first_match running_containers "nextcloud-fpm")
    as [_ Hfirst].
  destruct (Hfirst "4f1d" eq_refl) as (before & c & after & Hlist & Hbefore & Hc & Hid & _).
  exists before, c, after. split_and!; [exact Hlist| |by rewrite <-Hid].
  destruct before as [|c0 [|c1 before]]; [|done|].
  - injection Hlist as <- _. by vm_compute in Hc.
  - injection Hlist as _ <- _. inversion Hbefore as [|?? _ Hrest]; subst.
    inversion Hrest as [|?? Hc1 _]; subst. by vm_compute in Hc1.
Defined.

(** The nginx image of the installation is tagged "latest". *)
Lemma additional_update_with_unparsed_version_witness :
  update_additional_container "nginx" NGINX_REPO (Ok running_containers) hub_library
    true (Exited 0) (Some example_compose)
  = Some (AdditionalUncaught InvalidVersion, Some example_compose).
Proof.
  eapply (additional_update_with_unparsed_version "nginx" NGINX_REPO
            (Ok running_containers) hub_library true (Exited 0) (Some example_compose));
    [reflexivity|done|reflexivity].
Defined.

(** Postgres 15.7 runs and 16.3 is on offer. *)
Lemma additional_update_only_upgrades_witness :
  exists file',
    update_additional_container "postgres" POSTGRES_REPO (Ok running_containers)
      hub_library true (Exited 0) (Some example_compose) = Some (ServiceUpdated, file')
    /\ service_image "nextcloud-postgres" file' = Some (YStr "nextcloud:16.3").
Proof.
  eexists. split; [by vm_compute|].
  edestruct (additional_update_only_upgrades "postgres" POSTGRES_REPO
               (Ok running_containers) hub_library true (Exited 0)
               (Some example_compose))
    as (latest & versions & Hfetch & _ & _ & _ & Himage); [by vm_compute| |].
  - intros Heq. apply (f_equal (service_image "nextcloud-postgres")) in Heq.
    by vm_compute in Heq.
  - injection Hfetch as <- <-. apply Himage. by eexists _, _.
Defined.

(** The automatic installation with the default versions. *)
Lemma built_document_services_witness :
  exists d,
    build_compose_services all_installed hub_library defaults "8080" "8443"
      "/srv/nextcloud/nextcloud.env" "/srv/nextcloud" = Some (Ok d)
    /\ well_formed d
    /\ is_Some (service_entry "nextcloud-redis" d)
    /\ ~ is_Some (service_entry "redis" d).
Proof.
  eexists. split; [by vm_compute|].
  edestruct (built_document_services all_installed hub_library defaults "8080" "8443"
               "/srv/nextcloud/nextcloud.env" "/srv/nextcloud") as [Hwf Hnames];
    [by vm_compute|].
  split_and!; [exact Hwf| |].
  - apply Hnames. by do 3 right; left.
  - intros [?|[[_ ?]|[[_ ?]|[[_ ?]|[_ ?]]]]]%Hnames; done.
Defined.

(** The registry offers 29.0.4 and 28.0.8 and none is selected by
    hand. *)
Lemma cron_follows_nextcloud_version_witness :
  exists d,
    build_compose_services all_installed hub_library defaults "8080" "8443"
      "/srv/nextcloud/nextcloud.env" "/srv/nextcloud" = Some (Ok d)
    /\ service_field "nextcloud-fpm" "image" d = Some (YStr "nextcloud:29.0.4-fpm")
    /\ service_field "nextcloud-cron" "image" d = Some (YStr "nextcloud:29.0.4-fpm").
Proof.
  eexists. split; [by vm_compute|].
  edestruct (cron_follows_nextcloud_version all_installed hub_library defaults "8080"
               "8443" "/srv/nextcloud/nextcloud.env" "/srv/nextcloud")
    as (fpm_tags & version & Hfetch & Hfpm & Hcron & _ & Hdefault & _);
    [reflexivity|by vm_compute|].
  injection Hfetch as <-. rewrite (Hdefault eq_refl) in Hfpm, Hcron. by split.
Defined.

(** An upgrade step to version 30 on the document of the installation. *)
Lemma steps_update_built_document_witness :
  exists d,
    build_compose_services all_installed hub_library defaults "8080" "8443"
      "/srv/nextcloud/nextcloud.env" "/srv/nextcloud" = Some (Ok d)
    /\ service_image "nextcloud-cron" (after_updates "30.0.1-fpm" (Some d))
       = Some (YStr "nextcloud:30.0.1-fpm").
Proof.
  assert (exists d,
            build_compose_services all_installed hub_library defaults "8080" "8443"
              "/srv/nextcloud/nextcloud.env" "/srv/nextcloud" = Some (Ok d)) as [d Hd]
    by (eexists; by vm_compute).
  exists d. split; [exact Hd|].
  by destruct (steps_update_built_document all_installed hub_library defaults "8080"
                 "8443" "/srv/nextcloud/nextcloud.env" "/srv/nextcloud" d "30.0.1-fpm"
                 eq_refl Hd) as (_ & Hcron & _).
Defined.

